(** * The git extension's entry point: [extensions/git/src/main.ts]

    A shallow embedding of the activation code of the git extension and
    the properties its design document states about it.

    - [Js]: JavaScript strings (UTF-16 code units), the regular
      expressions the file writes, [String.prototype.split] and
      [Array.prototype.join].
    - Section [Program]: the functions of [main.ts], as state and error
      passing over a [World]. A world holds what is outside the file
      ([host], acted on by the collaborators of a [Host]), the settings,
      the workspace folders, the teardown registry and the trace of the
      side effects the file performed.
    - The words of the design document, then [Fixture], a small outside
      world to run the program on.
    - The properties, component by component. *)

From stdpp Require Import gmap strings list.
From Stdlib Require Import ZArith NArith.

Open Scope N_scope.

(* ===================================================================== *)
(** ** JavaScript strings and regular expressions                         *)
(* ===================================================================== *)

Module Js.

(** A JavaScript string is a sequence of UTF-16 code units. *)
Abbreviation jsstring := (list N).

(** A string literal of the source (its characters are all ASCII). *)
Definition lit (s : string) : jsstring :=
  map Ascii.N_of_ascii (String.list_ascii_of_string s).

(** The character class [\s]: WhiteSpace and LineTerminator of ECMAScript
    (TAB VT FF SP NBSP ZWNBSP, the Zs category, LF CR LS PS). *)
Definition is_space (c : N) : bool :=
  (c =? 9) || (c =? 10) || (c =? 11) || (c =? 12) || (c =? 13) || (c =? 32)
  || (c =? 160) || (c =? 5760) || ((8192 <=? c) && (c <=? 8202))
  || (c =? 8232) || (c =? 8233) || (c =? 8239) || (c =? 8287)
  || (c =? 12288) || (c =? 65279).

(** The regular expressions of the file need literals, classes,
    sequencing, [r?], [c*] for a class [c], and the assertions [^] and
    [$] (without the [m] flag: start and end of the whole input). *)
Inductive regex : Type :=
| REps
| RChar (c : N)
| RClass (p : N → bool)
| RSeq (r1 r2 : regex)
| ROpt (r : regex)
| RStarOf (p : N → bool)
| RBol
| REol.

Definition or_else {A} (a b : option A) : option A :=
  match a with Some x => Some x | None => b end.

(** Greedy [c*]: take one more character first, give it back when the
    continuation fails. *)
Fixpoint star_of {A} (p : N → bool) (i : nat) (s : jsstring)
    (k : nat → jsstring → option A) : option A :=
  match s with
  | c :: s' => if p c then or_else (star_of p (S i) s' k) (k i s) else k i s
  | [] => k i s
  end.

(** Backtracking matcher, in continuation-passing style: [i] is the index
    of the next code unit, [s] the input from [i] on. Alternatives are
    tried in the priority order of ECMAScript. *)
Fixpoint rmatch {A} (r : regex) (i : nat) (s : jsstring)
    (k : nat → jsstring → option A) : option A :=
  match r with
  | REps => k i s
  | RChar c =>
      match s with
      | x :: s' => if x =? c then k (S i) s' else None
      | [] => None
      end
  | RClass p =>
      match s with
      | x :: s' => if p x then k (S i) s' else None
      | [] => None
      end
  | RSeq r1 r2 => rmatch r1 i s (fun j t => rmatch r2 j t k)
  | ROpt r1 => or_else (rmatch r1 i s k) (k i s)
  | RStarOf p => star_of p i s k
  | RBol => match i with O => k i s | S _ => None end
  | REol => match s with [] => k i s | _ :: _ => None end
  end.

(** A match that starts exactly at index [i]; the result is the input
    that follows the match. *)
Definition match_at (r : regex) (i : nat) (s : jsstring) : option jsstring :=
  rmatch r i s (fun _ t => Some t).

(** [RegExp.prototype.test] of a regex without the [g] flag: is there a
    match starting at some index from 0 to the length? *)
Fixpoint search_from (r : regex) (i : nat) (s : jsstring) : bool :=
  match match_at r i s with
  | Some _ => true
  | None =>
      match s with
      | _ :: s' => search_from r (S i) s'
      | [] => false
      end
  end.

Definition test (r : regex) (s : jsstring) : bool := search_from r 0 s.

(** The regex of a literal text. *)
Fixpoint re_lit (s : jsstring) : regex :=
  match s with
  | [] => REps
  | c :: s' => RSeq (RChar c) (re_lit s')
  end.

(** [String.prototype.split(regex)] (no limit, no capture groups): [p] is
    where the current piece starts, [q] where the separator is searched,
    [cur] holds the code units from [p] to [q] in reverse, [rest] the
    input from [q], [acc] the pieces found so far in reverse. A match that
    ends at [p] is empty and is skipped. *)
Fixpoint split_loop (fuel : nat) (r : regex) (p q : nat)
    (cur rest : jsstring) (acc : list jsstring) : option (list jsstring) :=
  match fuel with
  | O => None
  | S fuel' =>
      match rest with
      | [] => Some (rev (rev cur :: acc))
      | c :: rest' =>
          match match_at r q rest with
          | None => split_loop fuel' r p (S q) (c :: cur) rest' acc
          | Some after =>
              let e := (q + (length rest - length after))%nat in
              if (e =? p)%nat
              then split_loop fuel' r p (S q) (c :: cur) rest' acc
              else split_loop fuel' r e e [] after (rev cur :: acc)
          end
      end
  end.

Definition split (r : regex) (s : jsstring) : option (list jsstring) :=
  match s with
  | [] => match match_at r 0 [] with Some _ => Some [] | None => Some [[]] end
  | _ :: _ => split_loop (2 * length s + 1) r 0 0 [] s []
  end.

(** [Array.prototype.join(sep)] on an array of strings. *)
Fixpoint join (sep : jsstring) (l : list jsstring) : jsstring :=
  match l with
  | [] => []
  | [x] => x
  | x :: l' => x ++ sep ++ join sep l'
  end.

(** [a[i]] for an integer index: [undefined] out of range. *)
Definition array_get {A} (a : list A) (i : Z) : option A :=
  if (i <? 0)%Z then None else a !! Z.to_nat i.

(** [ToString] of an array element that may be [undefined]. *)
Definition to_string (v : option jsstring) : jsstring :=
  match v with Some s => s | None => lit "undefined" end.

(** Truthiness of a string: every string but the empty one. *)
Definition truthy_string (s : jsstring) : bool :=
  match s with [] => false | _ :: _ => true end.

End Js.

Import Js.

(* ===================================================================== *)
(** ** Values that cross the boundary of [main.ts]                        *)
(* ===================================================================== *)

(** A thrown value. [null] and [undefined] have no properties: reading
    one from them throws. Any other value is kept as what [err.message]
    reads, a string or [undefined] ([None]), as it is for an [Error] and
    for a thrown string, and what string concatenation with [err]
    gives. *)
Inductive JsError :=
| ThrownNull
| ThrownUndefined
| Thrown (message : option jsstring) (text : jsstring).

(** ['...' + err] *)
Definition text (err : JsError) : jsstring :=
  match err with
  | ThrownNull => lit "null"
  | ThrownUndefined => lit "undefined"
  | Thrown _ t => t
  end.

(** The [TypeError] of a property read on [null] or [undefined]. *)
Definition type_error (value : jsstring) : JsError :=
  Thrown (Some (lit "Cannot read property 'message' of " ++ value))
         (lit "TypeError: Cannot read property 'message' of " ++ value).

(** How an asynchronous call ends: it resolves or it rejects. *)
Inductive Completion (A : Type) : Type :=
| Normal (a : A)
| Throw (e : JsError).
Arguments Normal {A} a.
Arguments Throw {A} e.

Record Uri := { scheme : jsstring; fsPath : jsstring }.
Record WorkspaceFolder := { uri : Uri; name : jsstring; index : nat }.

(** [IGit], the result of [findGit]. *)
Record IGit := { path : jsstring; version : jsstring }.

(** [new Git({ gitPath, version, env })]. *)
Record Git := {
  gitPath : jsstring;
  git_version : jsstring;
  env : list (jsstring * jsstring)
}.

(** [IExecutionResult] of [git.exec]. *)
Record IExecutionResult := { exitCode : Z; stdout : jsstring; stderr : jsstring }.

(** [fs.Stats], as far as the file reads it. *)
Record Stats := { isDirectory : bool }.

Record Model := { model_git : Git }.

(** [createGitExtension(model?)] of [./api/extension]: an extension
    object, of which only the model it was made from is recorded. *)
Record GitExtension := { extension_model : option Model }.

Definition createGitExtension (model : option Model) : GitExtension :=
  {| extension_model := model |}.

Inductive Disposable :=
| DSubscription | DOutputChannel | DAskpass | DModel | DLogListener
| DCommandCenter | DGitContentProvider | DGitDecorations | DGitProtocolHandler.

(** [ConfigurationChangeEvent]. *)
Record ConfigurationChangeEvent := { affectsConfiguration : string → bool }.

(** The side effects [main.ts] performs, in the order it performs them. *)
Inductive Effect :=
| CreateOutputChannel (name : string)
| AppendLine (line : jsstring)
| ShowOutput
| WarningMessage (msg : jsstring) (items : list jsstring)
| InformationMessage (msg : jsstring)
| ErrorMessage (msg : jsstring)
| RegisterCommand (command : string)
| ExecuteCommand (command : string) (args : list jsstring)
| ConsoleWarn (msg : jsstring)
| ConsoleError (msg : jsstring)
| ConfigUpdate (key : string) (value : bool) (global : bool)
| PushDisposable (d : Disposable)
| AddListener (event : string)
| CallFindGit (pathHint : option jsstring)
| CallGetEnv
| Exec (cwd : jsstring) (args : list jsstring) (outcome : Completion IExecutionResult)
| CallTask (i : nat) (outcome : Completion unit).

(** [!v] and [v === true] for a setting of type [boolean | undefined]. *)
Definition js_not (v : option bool) : bool :=
  match v with Some true => false | Some false => true | None => true end.

Definition strict_eq_true (v : option bool) : bool :=
  match v with Some b => b | None => false end.

(** [choice === label] for [choice : string | undefined]. *)
Definition strict_eq_string (choice : option jsstring) (label : jsstring) : bool :=
  match choice with Some s => bool_decide (s = label) | None => false end.

(** [err.message] *)
Definition get_message (err : JsError) : Completion (option jsstring) :=
  match err with
  | ThrownNull => Throw (type_error (lit "null"))
  | ThrownUndefined => Throw (type_error (lit "undefined"))
  | Thrown m _ => Normal m
  end.

(** [m || ''] for [m : string | undefined] *)
Definition or_empty (m : option jsstring) : jsstring := from_option id [] m.


(** The regular expressions of the file: [/\r?\n/mg] (it has no anchor
    for the [m] flag to change, and [split] does not read the [g] flag),
    [/^\s*$/], [/^[01]/] and [/Git installation not found/]. *)
Definition re_newline : regex := RSeq (ROpt (RChar 13)) (RChar 10).
Definition re_blank : regex := RSeq RBol (RSeq (RStarOf is_space) REol).
Definition re_legacy : regex :=
  RSeq RBol (RClass (fun c => (c =? 48) || (c =? 49))).
Definition git_not_found : jsstring := lit "Git installation not found".
Definition re_not_found : regex := re_lit git_not_found.

(** ["${s}"]: a template that wraps [s] in double quotes. *)
Definition quoted (s : jsstring) : jsstring := [34] ++ s ++ [34].

(* ===================================================================== *)
(** ** The world of the extension                                         *)
(* ===================================================================== *)

Section Program.

(** The state of everything outside [main.ts]: processes, the file system,
    the user, the other modules of the extension. *)
Context {P : Type}.

(** A teardown task, [() => Promise<any>]. *)
Definition Task : Type := P → Completion unit * P.

(** The collaborators of [main.ts], acting on the outside state. *)
Record Host := {
  (** [vscode-nls]: the message of a key, with its arguments filled in *)
  localize : string → string → list jsstring → jsstring;
  (** [./git]: the candidates handed to the callback, then the outcome *)
  findGit : option jsstring → P → list jsstring * Completion IGit * P;
  (** [./askpass] *)
  askpass_getEnv : P → Completion (list (jsstring * jsstring)) * P;
  (** [git.exec(cwd, args)] *)
  git_exec : Git → jsstring → list jsstring → P → Completion IExecutionResult * P;
  (** [window.showWarningMessage]: the user's answer, or a rejection *)
  warning_choice : jsstring → list jsstring → P → Completion (option jsstring) * P;
  (** [config.update(key, value, global)] on the settings that
      [getConfiguration('git')] resolves: a rejection, or the settings it
      resolves after the write (a value of a narrower scope may hide
      what was written) *)
  config_write : string → bool → bool → gmap string bool → P
                 → Completion (gmap string bool) * P;
  (** [fs.stat], [path.join] *)
  fs_stat : jsstring → P → Completion Stats;
  path_join : jsstring → jsstring → jsstring;
  (** [require('electron').remote.app], interpolated into a template, or
      what the [require] or the property reads throw; the expression
      reads no state of the program and [require] caches its module, so
      it ends the same way each time *)
  electron_remote_app : Completion jsstring;
  (** [`${model.repositories.length}`] *)
  repositories_length : P → jsstring;
  (** [telemetryReporter.dispose()] *)
  telemetryReporter_dispose : Task
}.

Record World := {
  host : P;
  (** the boolean settings of section [git], as [get<boolean>] reads them *)
  settings : gmap string bool;
  (** [git.path] *)
  path_setting : option jsstring;
  (** [workspace.workspaceFolders] *)
  workspaceFolders : option (list WorkspaceFolder);
  (** the module-level array [deactivateTasks] *)
  deactivateTasks : list Task;
  effects : list Effect
}.

Definition set_host (h : P) (w : World) : World :=
  {| host := h; settings := settings w; path_setting := path_setting w;
     workspaceFolders := workspaceFolders w;
     deactivateTasks := deactivateTasks w; effects := effects w |}.

Definition set_settings (s : gmap string bool) (w : World) : World :=
  {| host := host w; settings := s; path_setting := path_setting w;
     workspaceFolders := workspaceFolders w;
     deactivateTasks := deactivateTasks w; effects := effects w |}.

Definition push_task (t : Task) (w : World) : World :=
  {| host := host w; settings := settings w; path_setting := path_setting w;
     workspaceFolders := workspaceFolders w;
     deactivateTasks := deactivateTasks w ++ [t]; effects := effects w |}.

Definition add_effects (es : list Effect) (w : World) : World :=
  {| host := host w; settings := settings w; path_setting := path_setting w;
     workspaceFolders := workspaceFolders w;
     deactivateTasks := deactivateTasks w; effects := effects w ++ es |}.

(** An [async] function: it reads and changes the world, and resolves or
    rejects. [await] is sequencing. *)
Definition Async (A : Type) : Type := World → Completion A * World.

#[export] Instance async_ret : MRet Async := λ A a w, (Normal a, w).

#[export] Instance async_bind : MBind Async := λ A B f m w,
  match m w with
  | (Normal a, w') => f a w'
  | (Throw e, w') => (Throw e, w')
  end.

Definition throw {A} (e : JsError) : Async A := λ w, (Throw e, w).

(** [try { body } catch (err) { handler }] *)
Definition try_catch {A} (body : Async A) (handler : JsError → Async A) : Async A :=
  λ w, match body w with
       | (Normal a, w') => (Normal a, w')
       | (Throw e, w') => handler e w'
       end.

Definition emit (e : Effect) : Async unit := λ w, (Normal tt, add_effects [e] w).

(** Reading the world. *)
Definition reads {A} (f : World → A) : Async A := λ w, (Normal (f w), w).

(** [workspace.getConfiguration('git').get<boolean>(key)] *)
Definition config_get (key : string) : Async (option bool) :=
  reads (λ w, settings w !! key).

(** [a && await b] *)
Definition and_await (a b : Async bool) : Async bool :=
  x ← a; if (x : bool) then b else mret false.

(** [Promise.all] of promises that were started in order. *)
Fixpoint promise_all {A} (ps : list (Async A)) : Async (list A) :=
  match ps with
  | [] => mret []
  | p :: ps' => x ← p; xs ← promise_all ps'; mret (x :: xs)
  end.

Variable H : Host.

Definition showWarningMessage (msg : jsstring) (items : list jsstring)
  : Async (option jsstring) :=
  λ w, let '(choice, h) := warning_choice H msg items (host w) in
       (choice, set_host h (add_effects [WarningMessage msg items] w)).

(** [config.update(key, value, global)]; the call is in the trace
    whatever its outcome. *)
Definition config_update (key : string) (value global : bool) : Async unit :=
  λ w, let '(r, h) := config_write H key value global (settings w) (host w) in
       let w1 := set_host h (add_effects [ConfigUpdate key value global] w) in
       match r with
       | Normal s => (Normal tt, set_settings s w1)
       | Throw e => (Throw e, w1)
       end.

Definition exec (git : Git) (cwd : jsstring) (args : list jsstring)
  : Async IExecutionResult :=
  λ w, let '(r, h) := git_exec H git cwd args (host w) in
       (r, add_effects [Exec cwd args r] (set_host h w)).

Definition stat (p : jsstring) : Async Stats := λ w, (fs_stat H p (host w), w).

(* ===================================================================== *)
(** ** [main.ts]                                                          *)
(* ===================================================================== *)

(** [await task()] for the task at position [i] of the array. *)
Definition call_task (i : nat) (task : Task) : Async unit :=
  λ w, let '(r, h) := task (host w) in
       (r, add_effects [CallTask i r] (set_host h w)).

(** [for (const task of deactivateTasks) { await task(); }], from
    position [i] on. The array is private to the module and the tasks
    live outside it, so it does not change while the loop runs. *)
Fixpoint run_tasks (tasks : list Task) (i : nat) : Async unit :=
  match tasks with
  | [] => mret tt
  | task :: tasks' => call_task i task;; run_tasks tasks' (S i)
  end.

Definition deactivate : Async unit :=
  λ w, run_tasks (deactivateTasks w) 0 w.

(** The listener [onOutput] of [createModel]; [None] when a loop does not
    finish within its fuel. *)
Fixpoint pop_blank (fuel : nat) (lines : list jsstring) : option (list jsstring) :=
  match fuel with
  | O => None
  | S fuel' =>
      if test re_blank (to_string (array_get lines (Z.of_nat (length lines) - 1)))
      then pop_blank fuel' (removelast lines)
      else Some lines
  end.

Definition onOutput (str : jsstring) (w : World) : option (Completion unit * World) :=
  match split re_newline str with
  | None => None
  | Some lines =>
      match pop_blank (S (length lines)) lines with
      | None => None
      | Some lines' => Some (emit (AppendLine (join [10] lines')) w)
      end
  end.

Definition checkGitVersion (info : IGit) : Async unit :=
  v ← config_get "ignoreLegacyWarning";
  let shouldIgnore := strict_eq_true v in
  if shouldIgnore then mret tt
  else if negb (test re_legacy (version info)) then mret tt
  else
    let update := localize H "updateGit" "Update Git" [] in
    let neverShowAgain := localize H "neverShowAgain" "Don't Show Again" [] in
    choice ← showWarningMessage
      (localize H "git20"
         "You seem to have git {0} installed. Code works best with git >= 2"
         [version info])
      [update; neverShowAgain];
    if strict_eq_string choice update
    then emit (ExecuteCommand "vscode.open" [lit "https://git-scm.com/"])
    else if strict_eq_string choice neverShowAgain
    then config_update "ignoreLegacyWarning" true true
    else mret tt.

Definition call_findGit (pathHint : option jsstring) : Async IGit :=
  λ w, let '(candidates, r, h) := findGit H pathHint (host w) in
       (r, add_effects
             (CallFindGit pathHint ::
              map (λ path, AppendLine
                     (localize H "looking" "Looking for git in: {0}" [path]))
                  candidates)
             (set_host h w)).

Definition call_getEnv : Async (list (jsstring * jsstring)) :=
  λ w, let '(r, h) := askpass_getEnv H (host w) in
       (r, add_effects [CallGetEnv] (set_host h w)).

Definition createModel : Async Model :=
  pathHint ← reads path_setting;
  info ← call_findGit pathHint;
  emit (PushDisposable DAskpass);;
  env ← call_getEnv;
  let git := {| gitPath := path info; git_version := version info; env := env |} in
  let model := {| model_git := git |} in
  emit (PushDisposable DModel);;
  emit (RegisterCommand "git.setGitEditor");;
  emit (RegisterCommand "git.setGitDiffTool");;
  emit (RegisterCommand "git.setGitMergeTool");;
  emit (RegisterCommand "git.setGitTools");;
  emit (AddListener "onDidOpenRepository");;
  emit (AddListener "onDidCloseRepository");;
  count ← reads (λ w, repositories_length H (host w));
  emit (ExecuteCommand "setContext" [lit "gitOpenRepositoryCount"; count]);;
  emit (AppendLine (localize H "using git" "Using git {0} from {1}"
                      [version info; path info]));;
  emit (AddListener "log");;
  emit (PushDisposable DLogListener);;
  emit (PushDisposable DCommandCenter);;
  emit (PushDisposable DGitContentProvider);;
  emit (PushDisposable DGitDecorations);;
  emit (PushDisposable DGitProtocolHandler);;
  checkGitVersion info;;
  mret model.

Definition isGitRepository (folder : WorkspaceFolder) : Async bool :=
  if negb (bool_decide (scheme (uri folder) = lit "file")) then mret false
  else
    let dotGit := path_join H (fsPath (uri folder)) (lit ".git") in
    try_catch (dotGitStat ← stat dotGit; mret (isDirectory dotGitStat))
              (λ _, mret false).

Definition warnAboutMissingGit : Async unit :=
  v ← config_get "ignoreMissingGitWarning";
  let shouldIgnore := strict_eq_true v in
  if shouldIgnore then mret tt
  else
    folders ← reads workspaceFolders;
    match folders : option (list WorkspaceFolder) with
    | None => mret tt
    | Some folders =>
        areGitRepositories ← promise_all (map isGitRepository folders);
        if forallb negb areGitRepositories then mret tt
        else
          let download := localize H "downloadgit" "Download Git" [] in
          let neverShowAgain := localize H "neverShowAgain" "Don't Show Again" [] in
          choice ← showWarningMessage
            (localize H "notfound"
               "Git not found. Install it or configure it using the 'git.path' setting."
               [])
            [download; neverShowAgain];
          if strict_eq_string choice download
          then emit (ExecuteCommand "vscode.open" [lit "https://git-scm.com/"])
          else if strict_eq_string choice neverShowAgain
          then config_update "ignoreMissingGitWarning" true true
          else mret tt
    end.

Definition findVsCodeExeInPath : Async jsstring :=
  λ w, (electron_remote_app H, w).

Definition setGitGlobalConfig (git : Git) (key value : jsstring) : Async bool :=
  try_catch
    (res ← exec git (lit ".") [lit "config"; lit "--global"; key; value];
     if negb (exitCode res =? 0)%Z
     then
       emit (ConsoleError (lit "Fail to set git setting. Error: " ++ [10] ++ stderr res));;
       mret false
     else mret true)
    (λ error,
       emit (ConsoleError (lit "Fail to set git setting. Error: " ++ [10] ++ text error));;
       mret false).

(** [vscodeExe || await findVsCodeExeInPath()] for an optional parameter. *)
Definition or_findVsCodeExeInPath (vscodeExe : option jsstring) : Async jsstring :=
  match vscodeExe with
  | Some exe => if truthy_string exe then mret exe else findVsCodeExeInPath
  | None => findVsCodeExeInPath
  end.

Definition setVsCodeAsGitEditor (git : Git) (vscodeExe : option jsstring) : Async bool :=
  vscodeExe ← or_findVsCodeExeInPath vscodeExe;
  ok ← setGitGlobalConfig git (lit "core.editor") (quoted vscodeExe ++ lit " --wait");
  if (ok : bool) then
    emit (InformationMessage (localize H "successGitEditor"
            "Visual Studio Code has been successfully set as git editor" []));;
    mret true
  else
    emit (ErrorMessage (localize H "failGitEditor"
            "Failed to set Visual Studio Code as git editor. See OUTPUT panel form more details" []));;
    emit ShowOutput;;
    mret false.

Definition setVsCodeAsGitDiffTool (git : Git) (vscodeExe : option jsstring) : Async bool :=
  vscodeExe ← or_findVsCodeExeInPath vscodeExe;
  ok ← and_await
         (setGitGlobalConfig git (lit "difftool.vscode.cmd")
            (quoted vscodeExe ++ lit " --wait --diff " ++ quoted (lit "$LOCAL")
               ++ lit " " ++ quoted (lit "$REMOTE")))
         (setGitGlobalConfig git (lit "diff.tool") (lit "vscode"));
  if (ok : bool) then
    emit (InformationMessage (localize H "successDiffTool"
            "Visual Studio Code has been successfully set as diff tool" []));;
    mret true
  else
    emit (ErrorMessage (localize H "failDiffTool"
            "Failed to set Visual Studio Code as diff tool. See OUTPUT panel form more details" []));;
    emit ShowOutput;;
    mret false.

Definition setVsCodeAsGitMergeTool (git : Git) (vscodeExe : option jsstring) : Async bool :=
  vscodeExe ← or_findVsCodeExeInPath vscodeExe;
  ok ← and_await
         (setGitGlobalConfig git (lit "mergetool.vscode.cmd")
            (quoted vscodeExe ++ lit " --wait " ++ quoted (lit "$MERGED")))
         (setGitGlobalConfig git (lit "merge.tool") (lit "vscode"));
  if (ok : bool) then
    emit (InformationMessage (localize H "successMergeTool"
            "Visual Studio Code has been successfully set as merge tool" []));;
    mret true
  else
    emit (ErrorMessage (localize H "failMergeTool"
            "Failed to set Visual Studio Code as merge tool. See OUTPUT panel form more details" []));;
    emit ShowOutput;;
    mret false.

Definition setVsCodeAsGitTools (git : Git) : Async bool :=
  vscodeExe ← findVsCodeExeInPath;
  and_await (setVsCodeAsGitEditor git (Some vscodeExe))
    (and_await (setVsCodeAsGitDiffTool git (Some vscodeExe))
               (setVsCodeAsGitMergeTool git (Some vscodeExe))).

(** *** [activate] *)

(** A configuration change on the timeline of the host: the event it
    fires and the settings in force when the listeners run. *)
Record ConfigChange := {
  change_event : ConfigurationChangeEvent;
  change_settings : gmap string bool
}.

(** Modelled from the spec: [Event<T>] of [./util] is not in this file.
    An event is the sequence of its occurrences in time order, each with
    the world in which its listeners run. *)
Definition Event (T : Type) : Type := list (T * World).

(** [workspace.onDidChangeConfiguration] as seen by an extension that is
    suspended in world [w]. *)
Definition onDidChangeConfiguration (changes : list ConfigChange) (w : World)
  : Event ConfigurationChangeEvent :=
  map (λ c, (change_event c, set_settings (change_settings c) w)) changes.

(** Modelled from the spec: [filterEvent] of [./util] is not in this file.
    The filtered event has the occurrences for which the filter holds
    when they happen. *)
Definition filterEvent {T} (event : Event T) (filter : T → World → bool) : Event T :=
  List.filter (λ o, filter o.1 o.2) event.

(** Modelled from the spec: [eventToPromise] of [./util] is not in this
    file. The promise resolves on the first occurrence and is single-shot;
    [None]: it is still pending when the timeline ends. *)
Definition eventToPromise {T} (event : Event T) : option (T * World) :=
  head event.

(** Lines 129 to 141: what [activate] does before the enablement test. *)
Definition activate_prelude : Async (option bool) :=
  emit (PushDisposable DSubscription);;
  emit (CreateOutputChannel "Git");;
  emit (RegisterCommand "git.showOutput");;
  emit (PushDisposable DOutputChannel);;
  (λ w, (Normal tt, push_task (telemetryReporter_dispose H) w));;
  config_get "enabled".

(** Lines 149 to 163: the [try] of [activate] and its [catch]. *)
Definition activate_body : Async GitExtension :=
  try_catch
    (model ← createModel; mret (createGitExtension (Some model)))
    (λ err,
       message ← (λ w, (get_message err, w));
       if negb (test re_not_found (or_empty message))
       then throw err
       else
         emit (ConsoleWarn (to_string message));;
         emit (AppendLine (to_string message));;
         warnAboutMissingGit;;
         mret (createGitExtension None)).

(** Where [activate] stands once the timeline of configuration changes is
    over: still awaiting the enablement, or settled. *)
Inductive Activation :=
| Pending (w : World)
| Settled (r : Completion GitExtension) (w : World).

Definition settle (rw : Completion GitExtension * World) : Activation :=
  Settled rw.1 rw.2.

(** Lines 143 to 147: the world in which [activate] goes on, [None] when
    it is still suspended at the end of the timeline. *)
Definition await_enabled (changes : list ConfigChange) (enabled : option bool)
    (w : World) : option World :=
  if js_not enabled then
    let onConfigChange :=
      filterEvent (onDidChangeConfiguration changes w)
                  (λ e _, affectsConfiguration e "git") in
    let onEnabled :=
      filterEvent onConfigChange
                  (λ _ w', strict_eq_true (settings w' !! "enabled")) in
    match eventToPromise onEnabled with
    | None => None
    | Some (_, w') => Some w'
    end
  else Some w.

Definition activate (changes : list ConfigChange) (w0 : World) : Activation :=
  match activate_prelude w0 with
  | (Throw e, w) => Settled (Throw e) w
  | (Normal enabled, w) =>
      match await_enabled changes enabled w with
      | None => Pending w
      | Some w' => settle (activate_body w')
      end
  end.

End Program.

Arguments Host : clear implicits.
Arguments World : clear implicits.

(* ===================================================================== *)
(** ** The words of the design document                                   *)
(* ===================================================================== *)

(** The lines of a text (the design document, 4.8): a line ends at a
    newline, bare or prefixed by a carriage return. *)
Definition push_front (c : N) (ls : list jsstring) : list jsstring :=
  match ls with
  | l :: ls' => (c :: l) :: ls'
  | [] => [[c]]
  end.

Fixpoint spec_lines (s : jsstring) : list jsstring :=
  match s with
  | [] => [[]]
  | c :: t =>
      if c =? 10 then [] :: spec_lines t
      else
        match t with
        | d :: u =>
            if (c =? 13) && (d =? 10) then [] :: spec_lines u
            else push_front c (spec_lines t)
        | [] => push_front c (spec_lines t)
        end
  end.

(** The piece under construction in [split_loop], put in front of the
    lines that follow it. *)
Definition glue (cur : jsstring) (ls : list jsstring) : list jsstring :=
  match ls with
  | l :: ls' => (rev cur ++ l) :: ls'
  | [] => [rev cur]
  end.

(** An all-whitespace line. *)
Definition blank (l : jsstring) : Prop := Forall (λ c, is_space c = true) l.

(** [sub] occurs in [s]. *)
Definition contains (s sub : jsstring) : Prop := ∃ pre post, s = pre ++ sub ++ post.

(** The first character is the digit 0 or the digit 1. *)
Definition legacy_version (v : jsstring) : Prop :=
  ∃ rest, v = lit "0" ++ rest ∨ v = lit "1" ++ rest.

(** The prompts, the subprocess runs and the task calls of a trace. *)
Definition prompts (es : list Effect) : list (jsstring * list jsstring) :=
  omap (λ e, match e with WarningMessage m items => Some (m, items) | _ => None end) es.

Definition succeeded (r : Completion IExecutionResult) : bool :=
  match r with
  | Normal res => (exitCode res =? 0)%Z
  | Throw _ => false
  end.

Definition execs (es : list Effect) : list (list jsstring * bool) :=
  omap (λ e, match e with Exec _ args r => Some (args, succeeded r) | _ => None end) es.

Definition task_calls (es : list Effect) : list (nat * Completion unit) :=
  omap (λ e, match e with CallTask i r => Some (i, r) | _ => None end) es.

(** [git config --global key value] *)
Definition config_args (kv : jsstring * jsstring) : list jsstring :=
  [lit "config"; lit "--global"; kv.1; kv.2].

(** The configuration writes of each installer, in order. *)
Definition editor_plan (exe : jsstring) : list (jsstring * jsstring) :=
  [(lit "core.editor", quoted exe ++ lit " --wait")].

Definition diff_plan (exe : jsstring) : list (jsstring * jsstring) :=
  [(lit "difftool.vscode.cmd",
    quoted exe ++ lit " --wait --diff " ++ quoted (lit "$LOCAL") ++ lit " "
      ++ quoted (lit "$REMOTE"));
   (lit "diff.tool", lit "vscode")].

Definition merge_plan (exe : jsstring) : list (jsstring * jsstring) :=
  [(lit "mergetool.vscode.cmd", quoted exe ++ lit " --wait " ++ quoted (lit "$MERGED"));
   (lit "merge.tool", lit "vscode")].

Definition tools_plan (exe : jsstring) : list (jsstring * jsstring) :=
  editor_plan exe ++ diff_plan exe ++ merge_plan exe.

(** Writing a plan into a global configuration. *)
Definition write_plan (plan : list (jsstring * jsstring)) (c : gmap jsstring jsstring)
  : gmap jsstring jsstring :=
  foldl (λ c kv, <[kv.1 := kv.2]> c) c plan.

(** A folder qualifies (the design document, 4.7): its scheme is [file]
    and its [.git] entry stats as a directory. *)
Definition qualifies {P} (H : Host P) (p : P) (folder : WorkspaceFolder) : Prop :=
  scheme (uri folder) = lit "file"
  ∧ ∃ st, fs_stat H (path_join H (fsPath (uri folder)) (lit ".git")) p = Normal st
          ∧ isDirectory st = true.

(** A configuration change that lets a suspended activation go on: it
    affects section [git] and the enablement setting is then [true]. *)
Definition enables (c : ConfigChange) : Prop :=
  affectsConfiguration (change_event c) "git" = true
  ∧ change_settings c !! "enabled" = Some true.

(** Activation from [w0] gets past the enablement gate and enters its
    [try] in world [w]. *)
Definition enters_try {P} (H : Host P) (changes : list ConfigChange)
    (w0 w : World P) : Prop :=
  ∃ enabled wp,
    activate_prelude H w0 = (Normal enabled, wp)
    ∧ await_enabled changes enabled wp = Some w.

(** The calls of a loop over the teardown tasks that stops at the first
    task that rejects. From position [i] on and outside state [p], each
    task is called on the state the one before it left, and only when
    all before it resolved; [log] holds the calls with their outcomes,
    [r] is how the loop ends and [p'] the state it leaves. *)
Fixpoint task_trace {P} (tasks : list (@Task P)) (i : nat) (p : P)
    (log : list (nat * Completion unit)) (r : Completion unit) (p' : P) : Prop :=
  match tasks with
  | [] => log = [] ∧ r = Normal tt ∧ p' = p
  | t :: tasks' =>
      ∃ log', log = (i, (t p).1) :: log'
              ∧ match (t p).1 with
                | Normal _ => task_trace tasks' (S i) (t p).2 log' r p'
                | Throw e => log' = [] ∧ r = Throw e ∧ p' = (t p).2
                end
  end.

(** The same, spelled out: the calls are those of the first tasks of the
    array, in registration order, each with the outcome of its task;
    every call but the last resolved; when the last call rejected, the
    loop rejects with that failure and the tasks after it are not
    called; the loop rejects only so; it resolves exactly when every
    task was called and resolved. *)
Definition runs_until_failure {P} (tasks : list (@Task P))
    (log : list (nat * Completion unit)) (r : Completion unit) : Prop :=
  (length log ≤ length tasks)%nat
  ∧ (∀ k i o, log !! k = Some (i, o) →
       i = k ∧ ∃ t p, tasks !! k = Some t ∧ (t p).1 = o)
  ∧ (∀ pre i e post, log = pre ++ (i, Throw e) :: post → post = [] ∧ r = Throw e)
  ∧ (∀ e, r = Throw e → ∃ pre i, log = pre ++ [(i, Throw e)])
  ∧ (r = Normal tt ↔ length log = length tasks ∧ ∀ c, c ∈ log → c.2 = Normal tt).

(** What [setGitGlobalConfig] logs to the console for a run of git. *)
Definition failure_log (r : Completion IExecutionResult) : list Effect :=
  match r with
  | Normal res =>
      if (exitCode res =? 0)%Z then []
      else [ConsoleError (lit "Fail to set git setting. Error: " ++ [10] ++ stderr res)]
  | Throw error =>
      [ConsoleError (lit "Fail to set git setting. Error: " ++ [10] ++ text error)]
  end.

(** The executable an installer writes: its parameter when that is given
    and not empty, else what the lookup of the application gives, which
    may be a rejection. *)
Definition resolved_exe {P} (H : Host P) (vscodeExe : option jsstring)
  : Completion jsstring :=
  match vscodeExe with
  | Some exe => if truthy_string exe then Normal exe else electron_remote_app H
  | None => electron_remote_app H
  end.

(** An installer that rejects before doing anything. *)
Definition rejects_untouched {P} (m : World P → Completion bool * World P)
    (e : JsError) : Prop :=
  ∀ w, m w = (Throw e, w).

(** The runs of git of a short-circuiting sequence: the writes of the
    plan in order, each attempted only when all before it succeeded; the
    result tells whether all of them did. *)
Fixpoint sc_trace (plan : list (jsstring * jsstring))
    (log : list (list jsstring * bool)) (result : bool) : Prop :=
  match plan with
  | [] => log = [] ∧ result = true
  | kv :: plan' =>
      ∃ ok log', log = (config_args kv, ok) :: log'
                 ∧ if ok then sc_trace plan' log' result
                    else log' = [] ∧ result = false
  end.

(** The same in the words of the design document: the attempted writes
    are a prefix of the plan; after a write that fails nothing more is
    attempted and the result is [false]; the result is [true] exactly
    when every write of the plan was attempted and none failed. *)
Definition short_circuits (plan : list (jsstring * jsstring))
    (log : list (list jsstring * bool)) (result : bool) : Prop :=
  map fst log `prefix_of` map config_args plan
  ∧ (∀ pre args post, log = pre ++ (args, false) :: post → post = [] ∧ result = false)
  ∧ (result = true ↔ length log = length plan ∧ ∀ e, e ∈ log → e.2 = true).

(** An installer over a plan: it resolves, never rejects, and its runs of
    git short-circuit over the plan. *)
Definition installs {P} (m : World P → Completion bool * World P)
    (plan : list (jsstring * jsstring)) : Prop :=
  ∀ w, ∃ ok delta w',
    m w = (Normal ok, w') ∧ effects w' = effects w ++ delta
    ∧ short_circuits plan (execs delta) ok.

(** An installer, with the inductive reading of the short circuit. *)
Definition installs_sc {P} (m : World P → Completion bool * World P)
    (plan : list (jsstring * jsstring)) : Prop :=
  ∀ w, ∃ ok delta w',
    m w = (Normal ok, w') ∧ effects w' = effects w ++ delta
    ∧ sc_trace plan (execs delta) ok.

(** A healthy toolchain: every [config --global key value] exits with
    code 0 and leaves [key] set to [value] in the global configuration. *)
Definition healthy {P} (H : Host P) (global : P → gmap jsstring jsstring) : Prop :=
  ∀ git cwd key value p,
    ∃ res p',
      git_exec H git cwd [lit "config"; lit "--global"; key; value] p = (Normal res, p')
      ∧ exitCode res = 0%Z
      ∧ global p' = <[key := value]> (global p).

(** An installer that succeeds: it runs git for every write of its plan,
    in order, and leaves the plan written. *)
Definition writes {P} (global : P → gmap jsstring jsstring)
    (m : World P → Completion bool * World P)
    (plan : list (jsstring * jsstring)) : Prop :=
  ∀ w, ∃ w' delta,
    m w = (Normal true, w')
    ∧ effects w' = effects w ++ delta
    ∧ execs delta = map (λ kv, (config_args kv, true)) plan
    ∧ global (host w') = write_plan plan (global (host w)).

(** An installer that is run twice in a row: both runs resolve with
    [true]; each makes every write of the plan, in order, and each
    write succeeds; the first leaves the plan written into the global
    configuration it found, and the second leaves the global
    configuration as the first left it. *)
Definition writes_twice {P} (global : P → gmap jsstring jsstring)
    (m : World P → Completion bool * World P)
    (plan : list (jsstring * jsstring)) : Prop :=
  ∀ w, ∃ w1 w2 delta1 delta2,
    m w = (Normal true, w1) ∧ m w1 = (Normal true, w2)
    ∧ effects w1 = effects w ++ delta1 ∧ effects w2 = effects w1 ++ delta2
    ∧ execs delta1 = map (λ kv, (config_args kv, true)) plan
    ∧ execs delta2 = map (λ kv, (config_args kv, true)) plan
    ∧ global (host w1) = write_plan plan (global (host w))
    ∧ global (host w2) = global (host w1).

(* ===================================================================== *)
(** ** A small outside world to run the program on                        *)
(* ===================================================================== *)

Module Fixture.

Record Outside := {
  (** git's global configuration *)
  global_config : gmap jsstring jsstring;
  (** how [findGit] ends *)
  installed : Completion IGit;
  (** the paths that are directories *)
  directories : list jsstring;
  (** the user's next answers *)
  answers : list (option jsstring);
  (** what the teardown tasks that ran have left *)
  torn_down : list nat
}.

Definition not_found : JsError :=
  Thrown (Some (lit "Git installation not found."))
         (lit "Error: Git installation not found.").

Definition enoent : JsError :=
  Thrown (Some (lit "ENOENT: no such file or directory"))
         (lit "Error: ENOENT: no such file or directory").

Definition spawn_failed : JsError :=
  Thrown (Some (lit "spawn git ENOENT")) (lit "Error: spawn git ENOENT").

Definition put_config (k v : jsstring) (o : Outside) : Outside :=
  {| global_config := <[k := v]> (global_config o); installed := installed o;
     directories := directories o; answers := answers o; torn_down := torn_down o |}.

Definition next_answer (o : Outside) : Completion (option jsstring) * Outside :=
  match answers o with
  | a :: rest =>
      (Normal a, {| global_config := global_config o; installed := installed o;
                    directories := directories o; answers := rest;
                    torn_down := torn_down o |})
  | [] => (Normal None, o)
  end.

Definition tear_down (i : nat) (o : Outside) : Outside :=
  {| global_config := global_config o; installed := installed o;
     directories := directories o; answers := answers o;
     torn_down := torn_down o ++ [i] |}.

(** A git that writes every key but those of [locked], for which it
    exits with code 1; it cannot be spawned for anything else. *)
Definition run_git (locked : list jsstring) (args : list jsstring) (o : Outside)
  : Completion IExecutionResult * Outside :=
  match args with
  | [c; g; k; v] =>
      if bool_decide (c = lit "config") && bool_decide (g = lit "--global") then
        if bool_decide (k ∈ locked)
        then (Normal {| exitCode := 1; stdout := []; stderr := lit "error: could not lock config file" |}, o)
        else (Normal {| exitCode := 0; stdout := []; stderr := [] |}, put_config k v o)
      else (Throw spawn_failed, o)
  | _ => (Throw spawn_failed, o)
  end.

Definition fixture_host (locked : list jsstring) : Host Outside :=
  {| localize := λ _ msg _, lit msg;
     findGit := λ hint o,
       match installed o with
       | Normal info => ([path info], Normal info, o)
       | Throw e => ([lit "git"], Throw e, o)
       end;
     askpass_getEnv := λ o, (Normal [(lit "GIT_ASKPASS", lit "askpass.sh")], o);
     git_exec := λ _ _ args o, run_git locked args o;
     warning_choice := λ _ _ o, next_answer o;
     config_write := λ key value _ settings o, (Normal (<[key := value]> settings), o);
     fs_stat := λ p o,
       if bool_decide (p ∈ directories o)
       then Normal {| isDirectory := true |}
       else Throw enoent;
     path_join := λ a b, a ++ lit "/" ++ b;
     electron_remote_app := Normal (lit "/usr/share/code/code");
     repositories_length := λ _, lit "0";
     telemetryReporter_dispose := λ o, (Normal tt, tear_down 0 o) |}.

Definition outside (git : Completion IGit) (dirs : list jsstring)
    (answers : list (option jsstring)) : Outside :=
  {| global_config := ∅; installed := git; directories := dirs;
     answers := answers; torn_down := [] |}.

Definition world (o : Outside) (settings : gmap string bool)
    (folders : option (list WorkspaceFolder)) : World Outside :=
  {| host := o; settings := settings; path_setting := None;
     workspaceFolders := folders; deactivateTasks := []; effects := [] |}.

Definition git_2_30 : IGit := {| path := lit "/usr/bin/git"; version := lit "2.30.1" |}.
Definition git_1_9 : IGit := {| path := lit "/usr/bin/git"; version := lit "1.9.5" |}.

Definition the_git : Git :=
  {| gitPath := lit "/usr/bin/git"; git_version := lit "2.30.1"; env := [] |}.

Definition folder (scheme path : jsstring) : WorkspaceFolder :=
  {| uri := {| scheme := scheme; fsPath := path |}; name := path; index := 0 |}.

(** Two teardown tasks, the first of which rejects. *)
Definition failing_task : @Task Outside :=
  λ o, (Throw (Thrown (Some (lit "disposed twice")) (lit "Error: disposed twice")), o).

Definition second_task : @Task Outside := λ o, (Normal tt, tear_down 1 o).

Definition world_two_tasks : World Outside :=
  {| host := outside (Throw not_found) [] []; settings := ∅; path_setting := None;
     workspaceFolders := None; deactivateTasks := [failing_task; second_task];
     effects := [] |}.

(** A configuration change of section [git] that leaves the extension
    disabled, and one that enables it. *)
Definition affects_git : ConfigurationChangeEvent :=
  {| affectsConfiguration := λ section, bool_decide (section = "git") |}.

Definition still_disabled : ConfigChange :=
  {| change_event := affects_git; change_settings := {["enabled" := false]} |}.

Definition now_enabled : ConfigChange :=
  {| change_event := affects_git; change_settings := {["enabled" := true]} |}.

(** Worlds to start from: git 1.9 installed; git 2.30 installed; no git,
    the extension enabled; no git, the extension disabled; a folder whose
    [.git] does not exist. *)
Definition world_legacy : World Outside :=
  world (outside (Normal git_1_9) [] [Some (lit "Don't Show Again")]) ∅ None.

Definition world_modern : World Outside :=
  world (outside (Normal git_2_30) [] []) ∅ None.

Definition world_no_git : World Outside :=
  world (outside (Throw not_found) [] [None]) {["enabled" := true]} None.

Definition world_broken_git : World Outside :=
  world (outside (Throw enoent) [] []) {["enabled" := true]} None.

Definition world_disabled : World Outside :=
  world (outside (Normal git_2_30) [] []) {["enabled" := false]} None.

Definition world_plain_folder : World Outside :=
  world (outside (Throw not_found) [] [])
        ∅ (Some [folder (lit "file") (lit "/home/user/notes")]).

End Fixture.

(* ===================================================================== *)
(** ** More words about the program                                       *)
(* ===================================================================== *)

(** What a trace holds of each kind: the commands registered, the
    settings written, the lines of [console.error], the notifications
    ([true] for [showInformationMessage], [false] for [showErrorMessage])
    and the times the output channel was shown. *)
Definition registered (es : list Effect) : list string :=
  omap (λ e, match e with RegisterCommand c => Some c | _ => None end) es.

Definition config_updates (es : list Effect) : list (string * bool * bool) :=
  omap (λ e, match e with ConfigUpdate k v g => Some (k, v, g) | _ => None end) es.

Definition console_errors (es : list Effect) : list jsstring :=
  omap (λ e, match e with ConsoleError m => Some m | _ => None end) es.

Definition notes (es : list Effect) : list (bool * jsstring) :=
  omap (λ e, match e with
             | InformationMessage m => Some (true, m)
             | ErrorMessage m => Some (false, m)
             | _ => None
             end) es.

Definition output_shows (es : list Effect) : list unit :=
  omap (λ e, match e with ShowOutput => Some tt | _ => None end) es.

(** The two warnings of the file: the message and the two choices. *)
Definition legacy_prompt {P} (H : Host P) (info : IGit) : jsstring * list jsstring :=
  (localize H "git20"
     "You seem to have git {0} installed. Code works best with git >= 2"
     [version info],
   [localize H "updateGit" "Update Git" [];
    localize H "neverShowAgain" "Don't Show Again" []]).

Definition missing_prompt {P} (H : Host P) : jsstring * list jsstring :=
  (localize H "notfound"
     "Git not found. Install it or configure it using the 'git.path' setting." [],
   [localize H "downloadgit" "Download Git" [];
    localize H "neverShowAgain" "Don't Show Again" []]).

(** How a prompt ends in an outside state: the user's answer, or a
    rejection. *)
Definition answer {P} (H : Host P) (prompt : jsstring * list jsstring) (p : P)
  : Completion (option jsstring) :=
  (warning_choice H prompt.1 prompt.2 p).1.

(** The outside state a prompt leaves. *)
Definition after_prompt {P} (H : Host P) (prompt : jsstring * list jsstring) (p : P) : P :=
  (warning_choice H prompt.1 prompt.2 p).2.

(** How the write of dismissal flag [key] ends after a prompt shown in
    world [w]: the settings in force after it, or a rejection. *)
Definition dismissal {P} (H : Host P) (key : string)
    (prompt : jsstring * list jsstring) (w : World P)
  : Completion (gmap string bool) :=
  (config_write H key true true (settings w) (after_prompt H prompt (host w))).1.

(** The trace of one warning flow with prompt [prompt] and dismissal
    flag [key]: nothing, or the prompt followed by at most one reaction
    to the answer. *)
Definition one_warning (prompt : jsstring * list jsstring) (key : string)
    (delta : list Effect) : Prop :=
  delta = []
  ∨ delta = [WarningMessage prompt.1 prompt.2]
  ∨ delta = [WarningMessage prompt.1 prompt.2;
             ExecuteCommand "vscode.open" [lit "https://git-scm.com/"]]
  ∨ delta = [WarningMessage prompt.1 prompt.2; ConfigUpdate key true true].

(** A failure that reads as a missing git: it has properties, and its
    message contains the text [activate] looks for. *)
Definition missing_git (e : JsError) : Prop :=
  ∃ m t, e = Thrown m t ∧ contains (or_empty m) git_not_found.

(** [w'] is [w] after a run that added [delta] to the trace and left the
    teardown registry, the workspace folders and [git.path] alone. *)
Definition extends {P} (w w' : World P) (delta : list Effect) : Prop :=
  effects w' = effects w ++ delta
  ∧ deactivateTasks w' = deactivateTasks w
  ∧ workspaceFolders w' = workspaceFolders w
  ∧ path_setting w' = path_setting w.

(** How an activation ends once the missing-toolchain recovery runs
    from [w]: as the recovery does, with an extension without model when
    it resolves and with its rejection when it rejects. *)
Definition recovered {P} (H : Host P) (w : World P) : @Activation P :=
  match warnAboutMissingGit H w with
  | (Normal _, w') => Settled (Normal (createGitExtension None)) w'
  | (Throw e, w') => Settled (Throw e) w'
  end.

(** How an activation has ended, if it has. *)
Definition outcome_of {P} (a : @Activation P) : option (Completion GitExtension) :=
  match a with Pending _ => None | Settled r _ => Some r end.

(** The world an activation has reached. *)
Definition world_of {P} (a : @Activation P) : World P :=
  match a with Pending w => w | Settled _ w => w end.

(** The lines [createModel] logs while [findGit] probes its candidates. *)
Definition looking {P} (H : Host P) (pathHint : option jsstring)
    (candidates : list jsstring) : list Effect :=
  CallFindGit pathHint ::
  map (λ path, AppendLine (localize H "looking" "Looking for git in: {0}" [path]))
      candidates.

(** What [createModel] does between [askpass.getEnv] and
    [checkGitVersion]. *)
Definition wiring_effects {P} (H : Host P) (info : IGit) (count : jsstring)
  : list Effect :=
  [PushDisposable DModel;
   RegisterCommand "git.setGitEditor"; RegisterCommand "git.setGitDiffTool";
   RegisterCommand "git.setGitMergeTool"; RegisterCommand "git.setGitTools";
   AddListener "onDidOpenRepository"; AddListener "onDidCloseRepository";
   ExecuteCommand "setContext" [lit "gitOpenRepositoryCount"; count];
   AppendLine (localize H "using git" "Using git {0} from {1}" [version info; path info]);
   AddListener "log"; PushDisposable DLogListener;
   PushDisposable DCommandCenter; PushDisposable DGitContentProvider;
   PushDisposable DGitDecorations; PushDisposable DGitProtocolHandler].

(** The commands [createModel] registers. *)
Definition git_set_commands : list string :=
  ["git.setGitEditor"; "git.setGitDiffTool"; "git.setGitMergeTool"; "git.setGitTools"].

(** A sequence of configuration writes without notification: it
    resolves, notifies nothing, and logs one line to [console.error]
    exactly when it gives [false]. *)
Definition logs_failure {P} (m : World P → Completion bool * World P) : Prop :=
  ∀ w, ∃ ok delta w',
    m w = (Normal ok, w') ∧ effects w' = effects w ++ delta
    ∧ notes delta = [] ∧ output_shows delta = []
    ∧ length (console_errors delta) = (if ok then 0 else 1)%nat.

(** An installer that reports its outcome: one notification, of success
    or of failure, and on failure one line of [console.error] and the
    output channel shown once. *)
Definition reports {P} (m : World P → Completion bool * World P)
    (success failure : jsstring) : Prop :=
  ∀ w, ∃ ok delta w',
    m w = (Normal ok, w') ∧ effects w' = effects w ++ delta
    ∧ notes delta = [(ok, if ok then success else failure)]
    ∧ output_shows delta = (if ok then [] else [tt])
    ∧ length (console_errors delta) = (if ok then 0 else 1)%nat.

(** The messages of the three installers. *)
Definition editor_messages {P} (H : Host P) : jsstring * jsstring :=
  (localize H "successGitEditor"
     "Visual Studio Code has been successfully set as git editor" [],
   localize H "failGitEditor"
     "Failed to set Visual Studio Code as git editor. See OUTPUT panel form more details" []).

Definition diff_messages {P} (H : Host P) : jsstring * jsstring :=
  (localize H "successDiffTool"
     "Visual Studio Code has been successfully set as diff tool" [],
   localize H "failDiffTool"
     "Failed to set Visual Studio Code as diff tool. See OUTPUT panel form more details" []).

Definition merge_messages {P} (H : Host P) : jsstring * jsstring :=
  (localize H "successMergeTool"
     "Visual Studio Code has been successfully set as merge tool" [],
   localize H "failMergeTool"
     "Failed to set Visual Studio Code as merge tool. See OUTPUT panel form more details" []).

(** A text with every carriage return and newline pair turned into a
    newline. *)
Fixpoint crlf_to_lf (s : jsstring) : jsstring :=
  match s with
  | [] => []
  | c :: t =>
      match t with
      | d :: u => if (c =? 13) && (d =? 10) then 10 :: crlf_to_lf u
                  else c :: crlf_to_lf t
      | [] => [c]
      end
  end.

(** More worlds to start from. *)
Module Scenarios.
Import Fixture.

(** A user who closes the prompt, then one who answers with its second
    choice. *)
Definition world_legacy_closed : World Outside :=
  world (outside (Normal git_1_9) [] [None]) ∅ None.

(** No git, one folder that is a repository, a user who does not want to
    be asked again. *)
Definition world_repository : World Outside :=
  world (outside (Throw not_found) [lit "/home/user/project/.git"]
           [Some (lit "Don't Show Again")])
        {["enabled" := true]}
        (Some [folder (lit "file") (lit "/home/user/project")]).

(** Git cannot be found, and what the lookup throws is [null]. *)
Definition world_null_failure : World Outside :=
  world (outside (Throw ThrownNull) [] []) {["enabled" := true]} None.

Definition module_not_found : JsError :=
  Thrown (Some (lit "Cannot find module 'electron'"))
         (lit "Error: Cannot find module 'electron'").

Definition prompt_failed : JsError :=
  Thrown (Some (lit "Canceled")) (lit "Error: Canceled").

(** The host of [Fixture] with other collaborators: an [askpass.getEnv]
    that rejects, an application that cannot be looked up (git is
    healthy), a prompt that rejects. *)
Definition host_without_askpass : Host Outside :=
  {| localize := localize (fixture_host []);
     findGit := findGit (fixture_host []);
     askpass_getEnv := λ o, (Throw enoent, o);
     git_exec := git_exec (fixture_host []);
     warning_choice := warning_choice (fixture_host []);
     config_write := config_write (fixture_host []);
     fs_stat := fs_stat (fixture_host []);
     path_join := path_join (fixture_host []);
     electron_remote_app := electron_remote_app (fixture_host []);
     repositories_length := repositories_length (fixture_host []);
     telemetryReporter_dispose := telemetryReporter_dispose (fixture_host []) |}.

Definition host_without_electron : Host Outside :=
  {| localize := localize (fixture_host []);
     findGit := findGit (fixture_host []);
     askpass_getEnv := askpass_getEnv (fixture_host []);
     git_exec := git_exec (fixture_host []);
     warning_choice := warning_choice (fixture_host []);
     config_write := config_write (fixture_host []);
     fs_stat := fs_stat (fixture_host []);
     path_join := path_join (fixture_host []);
     electron_remote_app := Throw module_not_found;
     repositories_length := repositories_length (fixture_host []);
     telemetryReporter_dispose := telemetryReporter_dispose (fixture_host []) |}.

Definition host_without_prompt : Host Outside :=
  {| localize := localize (fixture_host []);
     findGit := findGit (fixture_host []);
     askpass_getEnv := askpass_getEnv (fixture_host []);
     git_exec := git_exec (fixture_host []);
     warning_choice := λ _ _ o, (Throw prompt_failed, o);
     config_write := config_write (fixture_host []);
     fs_stat := fs_stat (fixture_host []);
     path_join := path_join (fixture_host []);
     electron_remote_app := electron_remote_app (fixture_host []);
     repositories_length := repositories_length (fixture_host []);
     telemetryReporter_dispose := telemetryReporter_dispose (fixture_host []) |}.

End Scenarios.

(* ===================================================================== *)
(** ** Facts about the regular expressions                                *)
(* ===================================================================== *)

Module JsFacts.

Lemma match_at_newline q s :
  match_at re_newline q s =
  match s with
  | c :: t =>
      if c =? 10 then Some t
      else match t with
           | d :: u => if (c =? 13) && (d =? 10) then Some u else None
           | [] => None
           end
  | [] => None
  end.
Proof.
  unfold match_at, re_newline; simpl.
  destruct s as [|c t]; [reflexivity|].
  destruct (N.eqb_spec c 13) as [->|Hc]; simpl.
  - destruct t as [|d u]; [reflexivity|].
    destruct (d =? 10); reflexivity.
  - destruct (c =? 10); [reflexivity|].
    destruct t; reflexivity.
Qed.

Lemma spec_lines_nonempty s : spec_lines s ≠ [].
Proof.
  destruct s as [|c t]; simpl; [discriminate|].
  destruct (c =? 10); [discriminate|].
  destruct t as [|d u].
  - discriminate.
  - destruct ((c =? 13) && (d =? 10)); [discriminate|].
    unfold push_front. destruct (spec_lines (d :: u)); discriminate.
Qed.

Lemma glue_push_front c cur ls :
  ls ≠ [] → glue cur (push_front c ls) = glue (c :: cur) ls.
Proof.
  destruct ls as [|l ls']; [congruence|]. intros _. simpl.
  by rewrite <- app_assoc.
Qed.

Lemma glue_nil ls : ls ≠ [] → glue [] ls = ls.
Proof. destruct ls; [congruence|reflexivity]. Qed.

Lemma split_loop_newline fuel :
  ∀ p q cur rest acc,
    (p ≤ q)%nat → (length rest < fuel)%nat →
    split_loop fuel re_newline p q cur rest acc
    = Some (rev acc ++ glue cur (spec_lines rest)).
Proof.
  induction fuel as [|fuel IH]; intros p q cur rest acc Hpq Hlen; [lia|].
  simpl. destruct rest as [|c t].
  - simpl. rewrite app_nil_r. reflexivity.
  - rewrite match_at_newline. simpl in Hlen.
    destruct (N.eqb_spec c 10) as [->|Hc].
    + simpl.
      replace (q + (S (length t) - length t))%nat with (S q) by lia.
      destruct (Nat.eqb_spec (S q) p) as [Heq|_]; [lia|].
      rewrite IH by lia. rewrite glue_nil by apply spec_lines_nonempty.
      simpl. rewrite app_nil_r, <- app_assoc. reflexivity.
    + destruct t as [|d u].
      * rewrite IH by (simpl; lia). simpl.
        replace (c =? 10) with false by (symmetry; by apply N.eqb_neq).
        simpl. rewrite app_nil_r. reflexivity.
      * destruct ((c =? 13) && (d =? 10)) eqn:Hcr.
        -- simpl in *.
           replace (q + (S (S (length u)) - length u))%nat with (S (S q)) by lia.
           destruct (Nat.eqb_spec (S (S q)) p) as [Heq|_]; [lia|].
           rewrite IH by lia. rewrite glue_nil by apply spec_lines_nonempty.
           simpl.
           replace (c =? 10) with false by (symmetry; by apply N.eqb_neq).
           rewrite Hcr. simpl. rewrite app_nil_r, <- app_assoc. reflexivity.
        -- rewrite IH by (simpl in *; lia).
           change (spec_lines (c :: d :: u)) with
             (if c =? 10 then [] :: spec_lines (d :: u)
              else if (c =? 13) && (d =? 10) then [] :: spec_lines u
                   else push_front c (spec_lines (d :: u))).
           replace (c =? 10) with false by (symmetry; by apply N.eqb_neq).
           rewrite Hcr.
           rewrite glue_push_front by apply spec_lines_nonempty. reflexivity.
Qed.

(** [str.split(/\r?\n/mg)] always returns, with the lines of [str]. *)
Lemma split_newline s : split re_newline s = Some (spec_lines s).
Proof.
  destruct s as [|c t]; [reflexivity|].
  unfold split. rewrite split_loop_newline by (simpl; lia).
  simpl rev. unfold glue.
  pose proof (spec_lines_nonempty (c :: t)) as Hne.
  destruct (spec_lines (c :: t)); [congruence|]. reflexivity.
Qed.

Lemma star_then_eol p s i :
  star_of p i s (λ j t, rmatch REol j t (λ _ t', Some t'))
  = if forallb p s then Some [] else None.
Proof.
  revert i. induction s as [|c s IH]; intros i; simpl; [reflexivity|].
  destruct (p c); simpl; [|reflexivity].
  rewrite IH. destruct (forallb p s); reflexivity.
Qed.

Lemma search_after_start r s i : search_from (RSeq RBol r) (S i) s = false.
Proof.
  revert i. induction s as [|c s IH]; intros i; simpl; [reflexivity|].
  apply IH.
Qed.

(** [/^\s*$/.test(l)]: [l] is all whitespace. *)
Lemma test_blank l : test re_blank l = forallb is_space l.
Proof.
  unfold test, re_blank.
  destruct l as [|c l].
  - reflexivity.
  - cbn [search_from]. unfold match_at. cbn [rmatch].
    rewrite star_then_eol. rewrite search_after_start.
    destruct (forallb is_space (c :: l)); reflexivity.
Qed.

Lemma test_blank_iff l : test re_blank l = true ↔ blank l.
Proof.
  rewrite test_blank. unfold blank. rewrite forallb_forall, Forall_forall.
  split; intros Hl x Hx; apply Hl; by apply list_elem_of_In.
Qed.

(** [/^[01]/.test(v)]: the first code unit of [v] is the digit 0 or 1. *)
Lemma test_legacy v : test re_legacy v = true ↔ legacy_version v.
Proof.
  unfold test, re_legacy, legacy_version.
  destruct v as [|c v].
  - simpl. split; [discriminate|]. intros [rest [Hr|Hr]]; discriminate.
  - cbn [search_from]. unfold match_at. cbn [rmatch].
    rewrite search_after_start.
    destruct (N.eqb_spec c 48) as [->|H0]; simpl.
    + split; [|done]. intros _. exists v. by left.
    + destruct (N.eqb_spec c 49) as [->|H1]; simpl.
      * split; [|done]. intros _. exists v. by right.
      * split; [discriminate|].
        intros [rest [Hr|Hr]];
          [change (lit "0") with [48] in Hr | change (lit "1") with [49] in Hr];
          simpl in Hr; injection Hr as Hc _; contradiction.
Qed.

Lemma rmatch_lit {A} pat : ∀ i s (k : nat → jsstring → option A) x,
  rmatch (re_lit pat) i s k = Some x
  ↔ ∃ t, s = pat ++ t ∧ k (i + length pat)%nat t = Some x.
Proof.
  induction pat as [|c pat IH]; intros i s k x; simpl.
  - rewrite Nat.add_0_r. split; [eauto|]. by intros (t & -> & Hk).
  - destruct s as [|d s].
    + split; [discriminate|]. by intros (t & Ht & _).
    + destruct (N.eqb_spec d c) as [->|Hdc].
      * rewrite IH. replace (i + S (length pat))%nat with (S i + length pat)%nat by lia.
        split; intros (t & Ht & Hk); exists t; split; congruence.
      * split; [discriminate|]. intros (t & Ht & _). congruence.
Qed.

Lemma search_lit pat : ∀ s i,
  search_from (re_lit pat) i s = true ↔ contains s pat.
Proof.
  unfold contains.
  induction s as [|c s IH]; intros i; cbn [search_from].
  - destruct (match_at (re_lit pat) i []) eqn:Hm.
    + apply rmatch_lit in Hm as (t & Ht & _). split; [|done]. intros _.
      exists [], t. done.
    + split; [discriminate|]. intros (pre & post & Hs).
      destruct pre; [|discriminate]. simpl in Hs.
      assert (match_at (re_lit pat) i [] = Some post) as Hm'
        by (apply rmatch_lit; eauto).
      congruence.
  - destruct (match_at (re_lit pat) i (c :: s)) eqn:Hm.
    + apply rmatch_lit in Hm as (t & Ht & _). split; [|done]. intros _.
      exists [], t. done.
    + rewrite IH. split.
      * intros (pre & post & ->). exists (c :: pre), post. done.
      * intros (pre & post & Hs). destruct pre as [|c' pre].
        -- simpl in Hs.
           assert (match_at (re_lit pat) i (c :: s) = Some post) as Hm'
             by (apply rmatch_lit; eauto).
           congruence.
        -- injection Hs as -> ->. eauto.
Qed.

(** [/Git installation not found/.test(m)]: the text occurs in [m]. *)
Lemma test_not_found m : test re_not_found m = true ↔ contains m git_not_found.
Proof. apply search_lit. Qed.

End JsFacts.

(* ===================================================================== *)
(** ** The output log sink                                                *)
(* ===================================================================== *)

Section OutputLog.
Context {P : Type}.
Implicit Types (w : World P) (lines : list jsstring).

Lemma array_get_last {A} (l : list A) (x : A) :
  array_get (l ++ [x]) (Z.of_nat (length (l ++ [x])) - 1) = Some x.
Proof.
  unfold array_get. rewrite length_app. simpl.
  destruct (Z.ltb_spec (Z.of_nat (length l + 1) - 1) 0) as [Hlt|_]; [lia|].
  replace (Z.to_nat (Z.of_nat (length l + 1) - 1)) with (length l) by lia.
  by rewrite lookup_app_r, Nat.sub_diag.
Qed.

(** The [while] loop pops exactly the trailing all-whitespace lines, and
    it ends: one turn more than there are lines is enough. *)
Lemma pop_blank_spec lines :
  ∀ fuel, (length lines < fuel)%nat →
  ∃ kept dropped,
    lines = kept ++ dropped ∧ Forall blank dropped
    ∧ (∀ l, last kept = Some l → ¬ blank l)
    ∧ pop_blank fuel lines = Some kept.
Proof.
  induction lines as [|x l IH] using rev_ind; intros fuel Hfuel.
  - destruct fuel as [|fuel]; [simpl in Hfuel; lia|].
    exists [], []. repeat split; [constructor | intros l; discriminate].
  - destruct fuel as [|fuel]; [lia|].
    cbn [pop_blank]. rewrite array_get_last. cbn [to_string].
    destruct (test re_blank x) eqn:Hx.
    + rewrite removelast_last. rewrite length_app in Hfuel. simpl in Hfuel.
      destruct (IH fuel) as (kept & dropped & -> & Hd & Hk & Hrun); [lia|].
      exists kept, (dropped ++ [x]). rewrite app_assoc. repeat split; try done.
      apply Forall_app. split; [done|]. constructor; [|constructor].
      by apply JsFacts.test_blank_iff.
    + exists (l ++ [x]), []. rewrite app_nil_r. repeat split; [constructor|].
      intros l0. rewrite last_snoc. intros [= <-] Hb.
      apply JsFacts.test_blank_iff in Hb. congruence.
Qed.

(** C7. For every input string, [onOutput] returns; it splits the string
    into its lines (at bare or carriage-return-prefixed newlines), drops
    the trailing all-whitespace lines and only those (no line before the
    last line that is not all whitespace is dropped, blank or not), and
    forwards the lines that remain, rejoined with a newline, as exactly
    one [appendLine] entry. *)
Theorem onOutput_trims_trailing_blank_lines (str : jsstring) w :
  ∃ kept dropped,
    spec_lines str = kept ++ dropped
    ∧ Forall blank dropped
    ∧ (∀ l, last kept = Some l → ¬ blank l)
    ∧ onOutput str w
      = Some (Normal tt, add_effects [AppendLine (join [10] kept)] w).
Proof.
  unfold onOutput. rewrite JsFacts.split_newline.
  destruct (pop_blank_spec (spec_lines str) (S (length (spec_lines str))))
    as (kept & dropped & Hsplit & Hd & Hk & Hrun); [lia|].
  exists kept, dropped. rewrite Hrun. done.
Qed.

(** The example of the design document: input that ends in two blank
    lines and has a blank line inside. *)
Example onOutput_two_trailing_blank_lines w :
  onOutput [97; 10; 10; 98; 13; 10; 32; 10] w
  = Some (Normal tt, add_effects [AppendLine [97; 10; 10; 98]] w).
Proof. reflexivity. Qed.

(** When every line is blank the array is emptied, [lines[-1]] is
    [undefined], and the loop stops on it. *)
Example onOutput_only_blank_lines w :
  onOutput [32; 10; 9; 10] w = Some (Normal tt, add_effects [AppendLine []] w).
Proof. reflexivity. Qed.

End OutputLog.

(* ===================================================================== *)
(** ** Running the program: basic equations                               *)
(* ===================================================================== *)

Section Runs.
Context {P : Type} (H : Host P).
Implicit Types (w : World P) (es : list Effect).

Lemma bind_run {A B} (m : Async A) (f : A → Async B) w :
  (m ≫= f) w = match m w with
               | (Normal a, w') => f a w'
               | (Throw e, w') => (Throw e, w')
               end.
Proof. reflexivity. Qed.

Lemma add_effects_app es1 es2 w :
  add_effects es2 (add_effects es1 w) = add_effects (es1 ++ es2) w.
Proof. unfold add_effects; simpl. by rewrite app_assoc. Qed.

Lemma and_await_run (a b : @Async P bool) w :
  and_await a b w = match a w with
                    | (Normal true, w1) => b w1
                    | (Normal false, w1) => (Normal false, w1)
                    | (Throw e, w1) => (Throw e, w1)
                    end.
Proof.
  unfold and_await. rewrite bind_run.
  destruct (a w) as [[[|]|e] w1]; reflexivity.
Qed.

Lemma execs_app es1 es2 : execs (es1 ++ es2) = execs es1 ++ execs es2.
Proof. apply omap_app. Qed.

Lemma or_findVsCodeExeInPath_run vscodeExe w :
  or_findVsCodeExeInPath H vscodeExe w = (resolved_exe H vscodeExe, w).
Proof.
  unfold or_findVsCodeExeInPath, resolved_exe.
  destruct vscodeExe as [exe|]; [destruct (truthy_string exe)|]; reflexivity.
Qed.

(** One call of [setGitGlobalConfig]: git is run once; the call resolves
    with whether git exited with code 0. *)
Lemma setGitGlobalConfig_run git key value w :
  setGitGlobalConfig H git key value w =
  let r := git_exec H git (lit ".") (config_args (key, value)) (host w) in
  (Normal (succeeded r.1),
   add_effects (Exec (lit ".") (config_args (key, value)) r.1 :: failure_log r.1)
               (set_host r.2 w)).
Proof.
  unfold setGitGlobalConfig, try_catch, exec, config_args. rewrite bind_run.
  cbn [fst snd].
  destruct (git_exec H git (lit ".") [lit "config"; lit "--global"; key; value] (host w))
    as [[res|error] h]; cbn [fst snd succeeded failure_log].
  - destruct (exitCode res =? 0)%Z; cbn [negb].
    + reflexivity.
    + rewrite bind_run. unfold emit at 1. rewrite add_effects_app. reflexivity.
  - rewrite bind_run. unfold emit at 1. rewrite add_effects_app. reflexivity.
Qed.

Lemma execs_failure_log r : execs (failure_log r) = [].
Proof.
  destruct r as [res|e]; simpl; [|reflexivity].
  destruct (exitCode res =? 0)%Z; reflexivity.
Qed.

(** C4. [setGitGlobalConfig] never rejects: whatever the toolchain, the
    key and the value, it resolves with a boolean, which is [true] if and
    only if the run of git completed with exit code 0 (a non-zero exit
    code and a failure to run git both give [false]); git is run exactly
    once, as [config --global key value]. *)
Theorem setGitGlobalConfig_never_throws git key value w :
  ∃ (ok : bool) delta,
    (setGitGlobalConfig H git key value w).1 = Normal ok
    ∧ (ok = true ↔
       ∃ res, (git_exec H git (lit ".") [lit "config"; lit "--global"; key; value]
                 (host w)).1 = Normal res
              ∧ exitCode res = 0%Z)
    ∧ effects (setGitGlobalConfig H git key value w).2 = effects w ++ delta
    ∧ execs delta = [([lit "config"; lit "--global"; key; value], ok)].
Proof.
  rewrite setGitGlobalConfig_run. cbn zeta. unfold config_args. cbn [fst snd].
  destruct (git_exec H git (lit ".") [lit "config"; lit "--global"; key; value] (host w))
    as [r h]. cbn [fst snd].
  exists (succeeded r), (Exec (lit ".") [lit "config"; lit "--global"; key; value] r
                          :: failure_log r).
  repeat split.
  - destruct r as [res|e]; simpl; [|discriminate].
    intros Hz. exists res. split; [done|]. by apply Z.eqb_eq.
  - intros (res & -> & Hz). simpl. by apply Z.eqb_eq.
  - change (execs (?e :: ?l)) with (execs [e] ++ execs l).
    rewrite execs_failure_log. reflexivity.
Qed.

End Runs.

(* ===================================================================== *)
(** ** The multi-step tool installer                                      *)
(* ===================================================================== *)

Section ShortCircuit.
Implicit Types (plan : list (jsstring * jsstring)) (log : list (list jsstring * bool)).

Lemma sc_trace_app_false plan1 plan2 log :
  sc_trace plan1 log false → sc_trace (plan1 ++ plan2) log false.
Proof.
  revert log. induction plan1 as [|kv plan1 IH]; intros log; simpl.
  - intros [_ ?]; discriminate.
  - intros (ok & log' & -> & Hrest). exists ok, log'. split; [done|].
    destruct ok; [by apply IH | done].
Qed.

Lemma sc_trace_app_true plan1 plan2 log1 log2 result :
  sc_trace plan1 log1 true → sc_trace plan2 log2 result →
  sc_trace (plan1 ++ plan2) (log1 ++ log2) result.
Proof.
  revert log1. induction plan1 as [|kv plan1 IH]; intros log1; simpl.
  - by intros [-> _].
  - intros (ok & log' & -> & Hrest) H2. destruct ok.
    + exists true, (log' ++ log2). split; [done|]. by apply IH.
    + by destruct Hrest.
Qed.

Lemma sc_trace_prefix plan log result :
  sc_trace plan log result → map fst log `prefix_of` map config_args plan.
Proof.
  revert log. induction plan as [|kv plan IH]; intros log; simpl.
  - intros [-> _]. apply prefix_nil.
  - intros (ok & log' & -> & Hrest). simpl. apply prefix_cons.
    destruct ok; [by apply IH|]. destruct Hrest as [-> _]. apply prefix_nil.
Qed.

Lemma sc_trace_failure plan log result pre args post :
  sc_trace plan log result → log = pre ++ (args, false) :: post →
  post = [] ∧ result = false.
Proof.
  revert log pre. induction plan as [|kv plan IH]; intros log pre; simpl.
  - intros [-> _] Hlog. by destruct pre.
  - intros (ok & log' & -> & Hrest) Hlog. destruct pre as [|e pre]; simpl in Hlog.
    + injection Hlog as _ -> ->. done.
    + injection Hlog as <- ->. destruct ok.
      * by eapply IH.
      * destruct Hrest as [Hnil _]. by destruct pre.
Qed.

Lemma sc_trace_success plan log result :
  sc_trace plan log result →
  (result = true ↔ length log = length plan ∧ ∀ e, e ∈ log → e.2 = true).
Proof.
  revert log. induction plan as [|kv plan IH]; intros log; simpl.
  - intros [-> ->]. split; [|done]. intros _. split; [done|].
    intros e He. by apply elem_of_nil in He.
  - intros (ok & log' & -> & Hrest). destruct ok.
    + rewrite (IH _ Hrest). simpl. split.
      * intros [Hlen Hall]. split; [by rewrite Hlen|].
        intros e [->|He]%elem_of_cons; [done|by apply Hall].
      * intros [Hlen Hall]. split; [lia|].
        intros e He. apply Hall. by right.
    + destruct Hrest as [-> ->]. split; [discriminate|].
      intros [_ Hall]. apply (Hall (config_args kv, false)). by left.
Qed.

Lemma sc_trace_short_circuits plan log result :
  sc_trace plan log result → short_circuits plan log result.
Proof.
  intros Hsc. split; [|split].
  - by eapply sc_trace_prefix.
  - intros pre args post. by eapply sc_trace_failure.
  - by apply sc_trace_success.
Qed.

End ShortCircuit.

Section Installers.
Context {P : Type} (H : Host P).
Implicit Types (w : World P) (git : Git).

Lemma installs_sc_installs (m : @Async P bool) plan : installs_sc m plan → installs m plan.
Proof.
  intros Hm w. destruct (Hm w) as (ok & delta & w' & Hrun & Heff & Hsc).
  exists ok, delta, w'. eauto using sc_trace_short_circuits.
Qed.

Lemma setGitGlobalConfig_installs git key value :
  installs_sc (setGitGlobalConfig H git key value) [(key, value)].
Proof.
  intros w. rewrite setGitGlobalConfig_run. cbn zeta.
  destruct (git_exec H git (lit ".") (config_args (key, value)) (host w)) as [r h].
  cbn [fst snd]. eexists _, _, _. split; [reflexivity|]. split; [reflexivity|].
  change (execs (?e :: ?l)) with (execs [e] ++ execs l).
  rewrite execs_failure_log. simpl.
  exists (succeeded r), []. split; [done|]. by destruct (succeeded r).
Qed.

Lemma and_await_installs (a b : @Async P bool) plan1 plan2 :
  installs_sc a plan1 → installs_sc b plan2 →
  installs_sc (and_await a b) (plan1 ++ plan2).
Proof.
  intros Ha Hb w. rewrite and_await_run.
  destruct (Ha w) as (ok1 & d1 & w1 & -> & He1 & Hsc1). destruct ok1.
  - destruct (Hb w1) as (ok2 & d2 & w2 & -> & He2 & Hsc2).
    exists ok2, (d1 ++ d2), w2. split; [done|]. split.
    + by rewrite He2, He1, app_assoc.
    + rewrite execs_app. by apply sc_trace_app_true.
  - exists false, d1, w1. split; [done|]. split; [done|].
    by apply sc_trace_app_false.
Qed.

(** The notification that follows the writes does not run git. *)
Lemma notify_installs (m : @Async P bool) plan success failure :
  installs_sc m plan →
  installs_sc (ok ← m;
               if (ok : bool) then emit (InformationMessage success);; mret true
               else emit (ErrorMessage failure);; emit ShowOutput;; mret false)
              plan.
Proof.
  intros Hm w. rewrite bind_run.
  destruct (Hm w) as (ok & d & w1 & -> & He & Hsc). destruct ok.
  - eexists true, (d ++ [InformationMessage success]), _.
    split; [reflexivity|]. split.
    + simpl. by rewrite He, app_assoc.
    + rewrite execs_app. simpl. by rewrite app_nil_r.
  - eexists false, (d ++ [ErrorMessage failure; ShowOutput]), _.
    split; [reflexivity|]. split.
    + simpl. by rewrite He, <- !app_assoc.
    + rewrite execs_app. simpl. by rewrite app_nil_r.
Qed.

(** The lookup of the executable comes first: when it rejects, the
    installer rejects with it and has done nothing. *)
Lemma with_exe_run vscodeExe {A} (f : jsstring → @Async P A) w :
  (exe ← or_findVsCodeExeInPath H vscodeExe; f exe) w
  = match resolved_exe H vscodeExe with
    | Normal exe => f exe w
    | Throw e => (Throw e, w)
    end.
Proof.
  rewrite bind_run, or_findVsCodeExeInPath_run.
  by destruct (resolved_exe H vscodeExe).
Qed.

Lemma with_exe_installs vscodeExe exe (f : jsstring → @Async P bool) plan :
  resolved_exe H vscodeExe = Normal exe →
  installs_sc (f exe) plan →
  installs_sc (exe ← or_findVsCodeExeInPath H vscodeExe; f exe) plan.
Proof. intros Hexe Hf w. rewrite with_exe_run, Hexe. apply Hf. Qed.

Lemma with_exe_rejects vscodeExe e (f : jsstring → @Async P bool) :
  resolved_exe H vscodeExe = Throw e →
  rejects_untouched (exe ← or_findVsCodeExeInPath H vscodeExe; f exe) e.
Proof. intros Hexe w. by rewrite with_exe_run, Hexe. Qed.

Lemma setVsCodeAsGitEditor_installs git vscodeExe exe :
  resolved_exe H vscodeExe = Normal exe →
  installs_sc (setVsCodeAsGitEditor H git vscodeExe) (editor_plan exe).
Proof.
  intros Hexe. unfold setVsCodeAsGitEditor.
  apply (with_exe_installs vscodeExe exe (λ exe, _ ≫= _) _ Hexe).
  apply notify_installs, setGitGlobalConfig_installs.
Qed.

Lemma setVsCodeAsGitDiffTool_installs git vscodeExe exe :
  resolved_exe H vscodeExe = Normal exe →
  installs_sc (setVsCodeAsGitDiffTool H git vscodeExe) (diff_plan exe).
Proof.
  intros Hexe. unfold setVsCodeAsGitDiffTool.
  apply (with_exe_installs vscodeExe exe (λ exe, _ ≫= _) _ Hexe).
  apply notify_installs.
  apply (and_await_installs _ _ [_] [_]); apply setGitGlobalConfig_installs.
Qed.

Lemma setVsCodeAsGitMergeTool_installs git vscodeExe exe :
  resolved_exe H vscodeExe = Normal exe →
  installs_sc (setVsCodeAsGitMergeTool H git vscodeExe) (merge_plan exe).
Proof.
  intros Hexe. unfold setVsCodeAsGitMergeTool.
  apply (with_exe_installs vscodeExe exe (λ exe, _ ≫= _) _ Hexe).
  apply notify_installs.
  apply (and_await_installs _ _ [_] [_]); apply setGitGlobalConfig_installs.
Qed.

Lemma installers_reject git vscodeExe e :
  resolved_exe H vscodeExe = Throw e →
  rejects_untouched (setVsCodeAsGitEditor H git vscodeExe) e
  ∧ rejects_untouched (setVsCodeAsGitDiffTool H git vscodeExe) e
  ∧ rejects_untouched (setVsCodeAsGitMergeTool H git vscodeExe) e.
Proof. intros Hexe. repeat split; by apply with_exe_rejects. Qed.

(** Whatever string [findVsCodeExeInPath] gave [setVsCodeAsGitTools],
    even the empty one, the three installers write it. *)
Lemma resolved_exe_app app :
  electron_remote_app H = Normal app → resolved_exe H (Some app) = Normal app.
Proof. intros Happ. unfold resolved_exe. by destruct (truthy_string app). Qed.

Lemma setVsCodeAsGitTools_run git w :
  setVsCodeAsGitTools H git w
  = match electron_remote_app H with
    | Normal app =>
        and_await (setVsCodeAsGitEditor H git (Some app))
          (and_await (setVsCodeAsGitDiffTool H git (Some app))
                     (setVsCodeAsGitMergeTool H git (Some app))) w
    | Throw e => (Throw e, w)
    end.
Proof.
  unfold setVsCodeAsGitTools. rewrite bind_run. unfold findVsCodeExeInPath.
  by destruct (electron_remote_app H).
Qed.

Lemma setVsCodeAsGitTools_installs git app :
  electron_remote_app H = Normal app →
  installs_sc (setVsCodeAsGitTools H git) (tools_plan app).
Proof.
  intros Happ w. rewrite setVsCodeAsGitTools_run, Happ. revert w.
  pose proof (resolved_exe_app app Happ) as Hexe. unfold tools_plan.
  apply and_await_installs; [|apply and_await_installs].
  - by apply setVsCodeAsGitEditor_installs.
  - by apply setVsCodeAsGitDiffTool_installs.
  - by apply setVsCodeAsGitMergeTool_installs.
Qed.

(** C1. Each installer ([setVsCodeAsGitEditor], [setVsCodeAsGitDiffTool],
    [setVsCodeAsGitMergeTool] and the combined [setVsCodeAsGitTools])
    first has the executable looked up, unless it is given one. With an
    executable it resolves with a boolean and runs its configuration
    writes in order: once a write fails (its [setGitGlobalConfig] gave
    [false]) no later write of the sequence is attempted and the result
    is [false]; the result is [true] only when every write of the
    sequence was made and succeeded. When the lookup rejects, the
    installer rejects with it: no write is attempted and the result is
    not [true]. *)
Theorem installers_short_circuit git vscodeExe :
  match resolved_exe H vscodeExe with
  | Normal exe =>
      installs (setVsCodeAsGitEditor H git vscodeExe) (editor_plan exe)
      ∧ installs (setVsCodeAsGitDiffTool H git vscodeExe) (diff_plan exe)
      ∧ installs (setVsCodeAsGitMergeTool H git vscodeExe) (merge_plan exe)
  | Throw e =>
      rejects_untouched (setVsCodeAsGitEditor H git vscodeExe) e
      ∧ rejects_untouched (setVsCodeAsGitDiffTool H git vscodeExe) e
      ∧ rejects_untouched (setVsCodeAsGitMergeTool H git vscodeExe) e
  end
  ∧ match electron_remote_app H with
    | Normal app => installs (setVsCodeAsGitTools H git) (tools_plan app)
    | Throw e => rejects_untouched (setVsCodeAsGitTools H git) e
    end.
Proof.
  split.
  - destruct (resolved_exe H vscodeExe) as [exe|e] eqn:Hexe.
    + repeat split; apply installs_sc_installs.
      * by apply setVsCodeAsGitEditor_installs.
      * by apply setVsCodeAsGitDiffTool_installs.
      * by apply setVsCodeAsGitMergeTool_installs.
    + by apply installers_reject.
  - destruct (electron_remote_app H) as [app|e] eqn:Happ.
    + by apply installs_sc_installs, setVsCodeAsGitTools_installs.
    + intros w. by rewrite setVsCodeAsGitTools_run, Happ.
Qed.

End Installers.
Section ToolSelection.
Context {P : Type} (H : Host P).
Implicit Types (w : World P) (git : Git).

(** The runs of git of a two-step installer: the command key alone when
    its write fails, else the command key and then the selection key. *)
Lemma two_step_log (m : @Async P bool) key1 value1 key2 value2 w r w' delta :
  installs_sc m [(key1, value1); (key2, value2)] →
  m w = (r, w') → effects w' = effects w ++ delta →
  execs delta = [(config_args (key1, value1), false)]
  ∨ ∃ ok, execs delta = [(config_args (key1, value1), true);
                         (config_args (key2, value2), ok)].
Proof.
  intros Hm Hrun Heff.
  destruct (Hm w) as (ok & d & w1 & Hrun1 & Heff1 & Hsc).
  rewrite Hrun in Hrun1. injection Hrun1 as -> ->.
  rewrite Heff in Heff1. apply app_inv_head in Heff1 as ->.
  simpl in Hsc. destruct Hsc as (ok1 & log1 & -> & Hsc). destruct ok1.
  - destruct Hsc as (ok2 & log2 & -> & Hsc). right. exists ok2.
    destruct ok2; [by destruct Hsc as [-> _] | by destruct Hsc as [-> _]].
  - destruct Hsc as [-> _]. by left.
Qed.

Lemma selection_after_command (m : @Async P bool) key1 value1 key2 value2
    w r w' delta i ok :
  installs_sc m [(key1, value1); (key2, value2)] →
  m w = (r, w') → effects w' = effects w ++ delta →
  execs delta !! i = Some (config_args (key2, value2), ok) →
  key1 ≠ key2 →
  ∃ j, (j < i)%nat ∧ execs delta !! j = Some (config_args (key1, value1), true).
Proof.
  intros Hm Hrun Heff Hi Hne.
  destruct (two_step_log m key1 value1 key2 value2 w r w' delta Hm Hrun Heff)
    as [Hlog | [ok2 Hlog]]; rewrite Hlog in Hi |- *.
  - destruct i as [|i]; simpl in Hi; [|by destruct i].
    injection Hi as Hk _. congruence.
  - destruct i as [|i]; simpl in Hi.
    + injection Hi as Hk _. congruence.
    + exists 0%nat. split; [lia|done].
Qed.

(** C10. In every run of the diff-tool installer a write of [diff.tool]
    to [vscode] comes after a successful write of [difftool.vscode.cmd]
    of the same run, and in every run of the merge-tool installer a write
    of [merge.tool] to [vscode] comes after a successful write of
    [mergetool.vscode.cmd]: the selection is never written when the write
    of its command key failed or was not attempted. *)
Theorem tool_selected_only_after_command_written git vscodeExe w :
  (∀ r w' delta i ok,
     setVsCodeAsGitDiffTool H git vscodeExe w = (r, w') →
     effects w' = effects w ++ delta →
     execs delta !! i = Some ([lit "config"; lit "--global"; lit "diff.tool"; lit "vscode"], ok) →
     ∃ j value, (j < i)%nat
       ∧ execs delta !! j
         = Some ([lit "config"; lit "--global"; lit "difftool.vscode.cmd"; value], true))
  ∧ (∀ r w' delta i ok,
     setVsCodeAsGitMergeTool H git vscodeExe w = (r, w') →
     effects w' = effects w ++ delta →
     execs delta !! i = Some ([lit "config"; lit "--global"; lit "merge.tool"; lit "vscode"], ok) →
     ∃ j value, (j < i)%nat
       ∧ execs delta !! j
         = Some ([lit "config"; lit "--global"; lit "mergetool.vscode.cmd"; value], true)).
Proof.
  split; intros r w' delta i ok Hrun Heff Hi.
  - destruct (resolved_exe H vscodeExe) as [exe|e] eqn:Hexe.
    + pose proof (setVsCodeAsGitDiffTool_installs H git vscodeExe exe Hexe) as Hm.
      destruct (selection_after_command _ _ _ _ _ w r w' delta i ok
                  Hm Hrun Heff Hi) as (j & Hj & Hlog); [by intros [=]|].
      eauto.
    + destruct (installers_reject H git vscodeExe e Hexe) as (_ & Hreject & _).
      rewrite (Hreject w) in Hrun. injection Hrun as <- <-.
      rewrite <- (app_nil_r (effects w)) in Heff at 1.
      apply app_inv_head in Heff as <-. discriminate Hi.
  - destruct (resolved_exe H vscodeExe) as [exe|e] eqn:Hexe.
    + pose proof (setVsCodeAsGitMergeTool_installs H git vscodeExe exe Hexe) as Hm.
      destruct (selection_after_command _ _ _ _ _ w r w' delta i ok
                  Hm Hrun Heff Hi) as (j & Hj & Hlog); [by intros [=]|].
      eauto.
    + destruct (installers_reject H git vscodeExe e Hexe) as (_ & _ & Hreject).
      rewrite (Hreject w) in Hrun. injection Hrun as <- <-.
      rewrite <- (app_nil_r (effects w)) in Heff at 1.
      apply app_inv_head in Heff as <-. discriminate Hi.
Qed.

End ToolSelection.
Section Healthy.
Context {P : Type} (H : Host P) (global : P → gmap jsstring jsstring).
Hypothesis toolchain_healthy : healthy H global.
Implicit Types (w : World P) (git : Git) (c : gmap jsstring jsstring).

Lemma write_plan_union plan : ∀ c,
  write_plan plan c = list_to_map (reverse plan) ∪ c.
Proof.
  unfold write_plan. induction plan as [|[k v] plan IH]; intros c; simpl.
  - by rewrite (left_id_L ∅ (∪)).
  - rewrite IH, reverse_cons, list_to_map_app. simpl.
    rewrite <- (assoc_L (∪)). f_equal.
    rewrite insert_union_singleton_l. f_equal.
Qed.

(** Writing a plan a second time changes nothing. *)
Lemma write_plan_twice plan c :
  write_plan plan (write_plan plan c) = write_plan plan c.
Proof.
  rewrite !write_plan_union, (assoc_L (∪)). f_equal. apply (idemp_L (∪)).
Qed.

Lemma write_plan_app plan1 plan2 c :
  write_plan (plan1 ++ plan2) c = write_plan plan2 (write_plan plan1 c).
Proof. apply foldl_app. Qed.

Lemma setGitGlobalConfig_writes git key value :
  writes global (setGitGlobalConfig H git key value) [(key, value)].
Proof.
  intros w. rewrite setGitGlobalConfig_run. cbn zeta. unfold config_args. cbn [fst snd].
  destruct (toolchain_healthy git (lit ".") key value (host w))
    as (res & p' & -> & Hexit & Hglobal).
  cbn [fst snd succeeded failure_log]. rewrite Hexit. cbn [Z.eqb].
  eexists _, _. split; [reflexivity|]. split; [reflexivity|].
  split; [simpl; by rewrite Hexit | exact Hglobal].
Qed.

Lemma and_await_writes (a b : @Async P bool) plan1 plan2 :
  writes global a plan1 → writes global b plan2 →
  writes global (and_await a b) (plan1 ++ plan2).
Proof.
  intros Ha Hb w. rewrite and_await_run.
  destruct (Ha w) as (w1 & d1 & -> & He1 & Hx1 & Hg1).
  destruct (Hb w1) as (w2 & d2 & -> & He2 & Hx2 & Hg2).
  exists w2, (d1 ++ d2). split; [done|]. split; [by rewrite He2, He1, app_assoc|].
  split; [by rewrite execs_app, Hx1, Hx2, map_app|].
  by rewrite write_plan_app, Hg2, Hg1.
Qed.

Lemma notify_writes (m : @Async P bool) plan success failure :
  writes global m plan →
  writes global
    (ok ← m;
     if (ok : bool) then emit (InformationMessage success);; mret true
     else emit (ErrorMessage failure);; emit ShowOutput;; mret false)
    plan.
Proof.
  intros Hm w. rewrite bind_run. destruct (Hm w) as (w1 & d & -> & He & Hx & Hg).
  eexists _, (d ++ [InformationMessage success]). split; [reflexivity|].
  split; [simpl; by rewrite He, app_assoc|].
  split; [rewrite execs_app; simpl; by rewrite app_nil_r|]. done.
Qed.

Lemma with_exe_writes vscodeExe exe (f : jsstring → @Async P bool) plan :
  resolved_exe H vscodeExe = Normal exe →
  writes global (f exe) plan →
  writes global (exe ← or_findVsCodeExeInPath H vscodeExe; f exe) plan.
Proof. intros Hexe Hf w. rewrite with_exe_run, Hexe. apply Hf. Qed.

Lemma setVsCodeAsGitEditor_writes git vscodeExe exe :
  resolved_exe H vscodeExe = Normal exe →
  writes global (setVsCodeAsGitEditor H git vscodeExe) (editor_plan exe).
Proof.
  intros Hexe. unfold setVsCodeAsGitEditor.
  apply (with_exe_writes vscodeExe exe (λ exe, _ ≫= _) _ Hexe).
  apply notify_writes, setGitGlobalConfig_writes.
Qed.

Lemma setVsCodeAsGitDiffTool_writes git vscodeExe exe :
  resolved_exe H vscodeExe = Normal exe →
  writes global (setVsCodeAsGitDiffTool H git vscodeExe) (diff_plan exe).
Proof.
  intros Hexe. unfold setVsCodeAsGitDiffTool.
  apply (with_exe_writes vscodeExe exe (λ exe, _ ≫= _) _ Hexe).
  apply notify_writes.
  apply (and_await_writes _ _ [_] [_]); apply setGitGlobalConfig_writes.
Qed.

Lemma setVsCodeAsGitMergeTool_writes git vscodeExe exe :
  resolved_exe H vscodeExe = Normal exe →
  writes global (setVsCodeAsGitMergeTool H git vscodeExe) (merge_plan exe).
Proof.
  intros Hexe. unfold setVsCodeAsGitMergeTool.
  apply (with_exe_writes vscodeExe exe (λ exe, _ ≫= _) _ Hexe).
  apply notify_writes.
  apply (and_await_writes _ _ [_] [_]); apply setGitGlobalConfig_writes.
Qed.

Lemma setVsCodeAsGitTools_writes git app :
  electron_remote_app H = Normal app →
  writes global (setVsCodeAsGitTools H git) (tools_plan app).
Proof.
  intros Happ w. rewrite setVsCodeAsGitTools_run, Happ. revert w.
  pose proof (resolved_exe_app H app Happ) as Hexe. unfold tools_plan.
  apply and_await_writes; [|apply and_await_writes].
  - by apply setVsCodeAsGitEditor_writes.
  - by apply setVsCodeAsGitDiffTool_writes.
  - by apply setVsCodeAsGitMergeTool_writes.
Qed.

Lemma writes_writes_twice (m : @Async P bool) plan :
  writes global m plan → writes_twice global m plan.
Proof.
  intros Hm w. destruct (Hm w) as (w1 & d1 & Hrun1 & He1 & Hx1 & Hg1).
  destruct (Hm w1) as (w2 & d2 & Hrun2 & He2 & Hx2 & Hg2).
  exists w1, w2, d1, d2. repeat (split; [done|]).
  by rewrite Hg2, Hg1, write_plan_twice.
Qed.


End Healthy.
(* ===================================================================== *)
(** ** The compatibility gate and the missing-toolchain recovery          *)
(* ===================================================================== *)

Section Warnings.
Context {P : Type} (H : Host P).
Implicit Types (w : World P) (folder : WorkspaceFolder).

Lemma prompts_app es1 es2 : prompts (es1 ++ es2) = prompts es1 ++ prompts es2.
Proof. apply omap_app. Qed.

Lemma strict_eq_true_spec (v : option bool) :
  strict_eq_true v = true ↔ v = Some true.
Proof. destruct v as [[|]|]; simpl; split; congruence. Qed.

Lemma strict_eq_string_true choice label :
  strict_eq_string choice label = true ↔ choice = Some label.
Proof.
  destruct choice as [s|]; simpl; [|split; discriminate].
  rewrite bool_decide_eq_true. split; congruence.
Qed.

Lemma strict_eq_string_false choice label :
  strict_eq_string choice label = false ↔ choice ≠ Some label.
Proof.
  rewrite <- strict_eq_string_true. destruct (strict_eq_string choice label);
    split; congruence.
Qed.

(** [config.update], in full. *)
Lemma config_update_run (key : string) value global w :
  config_update H key value global w
  = let out := config_write H key value global (settings w) (host w) in
    let w1 := set_host out.2 (add_effects [ConfigUpdate key value global] w) in
    match out.1 with
    | Normal s => (Normal tt, set_settings s w1)
    | Throw e => (Throw e, w1)
    end.
Proof.
  unfold config_update.
  by destruct (config_write H key value global (settings w) (host w)) as [[s|e] h].
Qed.

(** A two-choice warning and the reaction to its answer, in full. *)
Lemma warn_then_choose_exact msg first second (key : string) w :
  (choice ← showWarningMessage H msg [first; second];
   if strict_eq_string choice first
   then emit (ExecuteCommand "vscode.open" [lit "https://git-scm.com/"])
   else if strict_eq_string choice second
        then config_update H key true true
        else mret tt) w
  = let w1 := set_host (warning_choice H msg [first; second] (host w)).2
                (add_effects [WarningMessage msg [first; second]] w) in
    match answer H (msg, [first; second]) (host w) with
    | Throw e => (Throw e, w1)
    | Normal choice =>
        if strict_eq_string choice first
        then (Normal tt,
              add_effects [ExecuteCommand "vscode.open" [lit "https://git-scm.com/"]] w1)
        else if strict_eq_string choice second
             then config_update H key true true w1
             else (Normal tt, w1)
    end.
Proof.
  rewrite bind_run. unfold showWarningMessage, answer. cbn [fst snd].
  destruct (warning_choice H msg [first; second] (host w)) as [[choice|e] h];
    cbn [fst snd]; cbn zeta; [|reflexivity].
  destruct (strict_eq_string choice first); [reflexivity|].
  destruct (strict_eq_string choice second); reflexivity.
Qed.

(** A two-choice warning and what follows it: exactly one prompt,
    whatever the answer and however it ends; it rejects only with a
    rejection of the prompt or of the settings write. *)
Lemma warn_then_choose_run msg first second (key : string) w :
  ∃ r w',
    (choice ← showWarningMessage H msg [first; second];
     if strict_eq_string choice first
     then emit (ExecuteCommand "vscode.open" [lit "https://git-scm.com/"])
     else if strict_eq_string choice second
          then config_update H key true true
          else mret tt) w = (r, w')
    ∧ prompts (effects w') = prompts (effects w) ++ [(msg, [first; second])]
    ∧ (r = Normal tt
       ∨ ∃ e, r = Throw e
              ∧ (answer H (msg, [first; second]) (host w) = Throw e
                 ∨ ∃ s p, (config_write H key true true s p).1 = Throw e)).
Proof.
  rewrite warn_then_choose_exact. cbn zeta.
  destruct (answer H (msg, [first; second]) (host w)) as [choice|e].
  2:{ eexists _, _. split; [reflexivity|]. split; [|right; eauto].
      simpl. rewrite prompts_app. done. }
  destruct (strict_eq_string choice first).
  { eexists _, _. split; [reflexivity|]. split; [|by left].
    simpl. rewrite !prompts_app. simpl. by rewrite app_nil_r. }
  destruct (strict_eq_string choice second).
  2:{ eexists _, _. split; [reflexivity|]. split; [|by left].
      simpl. rewrite prompts_app. done. }
  rewrite config_update_run. cbn zeta.
  destruct (config_write H key true true _ _) as [[s|e] h] eqn:Hwrite; cbn [fst snd].
  - eexists _, _. split; [reflexivity|]. split; [|by left].
    simpl. rewrite !prompts_app. simpl. by rewrite app_nil_r.
  - eexists _, _. split; [reflexivity|]. split.
    + simpl. rewrite !prompts_app. simpl. by rewrite app_nil_r.
    + right. exists e. split; [done|]. right. eexists _, _. by rewrite Hwrite.
Qed.

(** C2. With a version string whose first character is the digit 0 or 1
    and the [ignoreLegacyWarning] flag not [true], [checkGitVersion]
    presents exactly one warning prompt, whatever the answer; it then
    resolves, unless the prompt or the settings write that follows the
    answer rejects. With any other version string (another digit first,
    a non-digit first, or empty), or with the flag [true], it presents
    no prompt and changes nothing. *)
Theorem checkGitVersion_prompts_legacy_only (info : IGit) w :
  (legacy_version (version info) ∧ settings w !! "ignoreLegacyWarning" ≠ Some true →
   ∃ prompt r w',
     checkGitVersion H info w = (r, w')
     ∧ prompts (effects w') = prompts (effects w) ++ [prompt]
     ∧ (r = Normal tt
        ∨ ∃ e, r = Throw e
               ∧ (answer H (legacy_prompt H info) (host w) = Throw e
                  ∨ ∃ s p, (config_write H "ignoreLegacyWarning" true true s p).1
                           = Throw e)))
  ∧ (¬ legacy_version (version info) ∨ settings w !! "ignoreLegacyWarning" = Some true →
     checkGitVersion H info w = (Normal tt, w)).
Proof.
  unfold checkGitVersion. rewrite bind_run. unfold config_get, reads. cbn zeta.
  split.
  - intros [Hlegacy Hflag].
    apply JsFacts.test_legacy in Hlegacy.
    destruct (strict_eq_true (settings w !! "ignoreLegacyWarning")) eqn:Hignore.
    { by apply strict_eq_true_spec in Hignore. }
    rewrite Hlegacy. cbn [negb].
    destruct (warn_then_choose_run
                (localize H "git20"
                   "You seem to have git {0} installed. Code works best with git >= 2"
                   [version info])
                (localize H "updateGit" "Update Git" [])
                (localize H "neverShowAgain" "Don't Show Again" [])
                "ignoreLegacyWarning" w) as (r & w' & Hrun & Hprompts & Hr).
    eexists _, r, w'. split; [exact Hrun|]. split; [exact Hprompts | exact Hr].
  - intros [Hnot | Hflag].
    + destruct (strict_eq_true (settings w !! "ignoreLegacyWarning")); [reflexivity|].
      destruct (test re_legacy (version info)) eqn:Htest; [|reflexivity].
      by apply JsFacts.test_legacy in Htest.
    + by rewrite Hflag.
Qed.

(** [isGitRepository] resolves, leaves the world as it is, and says
    whether the folder qualifies. *)
Lemma isGitRepository_run folder w :
  ∃ b : bool,
    isGitRepository H folder w = (Normal b, w)
    ∧ (b = true ↔ qualifies H (host w) folder).
Proof.
  unfold isGitRepository, qualifies.
  destruct (decide (scheme (uri folder) = lit "file")) as [Hs|Hs].
  - rewrite (bool_decide_eq_true_2 _ Hs). cbn [negb].
    unfold try_catch, stat. rewrite bind_run.
    destruct (fs_stat H (path_join H (fsPath (uri folder)) (lit ".git")) (host w))
      as [st|e] eqn:Hstat.
    + exists (isDirectory st). split; [reflexivity|]. split.
      * intros Hd. split; [done|]. by exists st.
      * intros (_ & st' & [= <-] & Hd). done.
    + exists false. split; [reflexivity|]. split; [discriminate|].
      by intros (_ & st & ? & _).
  - rewrite (bool_decide_eq_false_2 _ Hs). cbn [negb].
    exists false. split; [reflexivity|]. split; [discriminate|]. by intros [? _].
Qed.

Lemma promise_all_isGitRepository folders w :
  ∃ bs : list bool,
    promise_all (map (isGitRepository H) folders) w = (Normal bs, w)
    ∧ Forall2 (λ folder b, b = true ↔ qualifies H (host w) folder) folders bs.
Proof.
  induction folders as [|folder folders IH]; simpl.
  - exists []. split; [reflexivity|constructor].
  - destruct (isGitRepository_run folder w) as (b & Hrun & Hb).
    destruct IH as (bs & Hall & Hbs).
    exists (b :: bs). split.
    + rewrite bind_run, Hrun, bind_run, Hall. reflexivity.
    + by constructor.
Qed.

Lemma none_qualifies folders (bs : list bool) p :
  Forall2 (λ folder b, b = true ↔ qualifies H p folder) folders bs →
  (∀ f, f ∈ folders → ¬ qualifies H p f) →
  forallb negb bs = true.
Proof.
  induction 1 as [|folder b folders bs Hb _ IH]; intros Hnone; [reflexivity|].
  simpl. rewrite IH by (intros f Hf; apply Hnone; by right).
  destruct b; [|reflexivity].
  exfalso. apply (Hnone folder); [by left|]. by apply Hb.
Qed.

(** C6. [warnAboutMissingGit] presents no prompt and changes nothing when
    the [ignoreMissingGitWarning] flag is [true], when there are no open
    workspace folders, or when no folder qualifies. A folder qualifies
    only if its scheme is [file] and its [.git] entry stats as a
    directory; [isGitRepository] never rejects, and a folder whose stat
    fails does not qualify. *)
Theorem warnAboutMissingGit_silent_without_repository w :
  (∀ folder, ∃ b : bool,
     isGitRepository H folder w = (Normal b, w)
     ∧ (b = true ↔ qualifies H (host w) folder)
     ∧ (∀ e, fs_stat H (path_join H (fsPath (uri folder)) (lit ".git")) (host w)
             = Throw e → b = false))
  ∧ (settings w !! "ignoreMissingGitWarning" = Some true
     ∨ workspaceFolders w = None
     ∨ (∃ folders, workspaceFolders w = Some folders
                   ∧ ∀ f, f ∈ folders → ¬ qualifies H (host w) f)
     → warnAboutMissingGit H w = (Normal tt, w)).
Proof.
  split.
  - intros folder. destruct (isGitRepository_run folder w) as (b & Hrun & Hb).
    exists b. split; [done|]. split; [done|].
    intros e He. destruct b; [|reflexivity].
    destruct (proj1 Hb eq_refl) as (_ & st & Hst & _). congruence.
  - unfold warnAboutMissingGit. rewrite bind_run. unfold config_get, reads. cbn zeta.
    intros [Hflag | [Hnone | (folders & Hsome & Hnone)]].
    + by rewrite Hflag.
    + destruct (strict_eq_true (settings w !! "ignoreMissingGitWarning")); [reflexivity|].
      rewrite bind_run, Hnone. reflexivity.
    + destruct (strict_eq_true (settings w !! "ignoreMissingGitWarning")); [reflexivity|].
      rewrite bind_run, Hsome. cbn iota beta. rewrite bind_run.
      destruct (promise_all_isGitRepository folders w) as (bs & -> & Hbs).
      by rewrite (none_qualifies folders bs (host w) Hbs Hnone).
Qed.

End Warnings.

(* ===================================================================== *)
(** ** Activation                                                         *)
(* ===================================================================== *)

Section Activation.
Context {P : Type} (H : Host P).
Implicit Types (w : World P) (changes : list ConfigChange).

(** The recovery rejects only with a rejection of its prompt or of the
    settings write that follows the answer. *)
Lemma warnAboutMissingGit_rejects w e w' :
  warnAboutMissingGit H w = (Throw e, w') →
  answer H (missing_prompt H) (host w) = Throw e
  ∨ ∃ s p, (config_write H "ignoreMissingGitWarning" true true s p).1 = Throw e.
Proof.
  unfold warnAboutMissingGit. rewrite bind_run. unfold config_get, reads. cbn zeta.
  destruct (strict_eq_true (settings w !! "ignoreMissingGitWarning")); [discriminate|].
  rewrite bind_run. destruct (workspaceFolders w) as [folders|]; [|discriminate].
  cbn iota beta. rewrite bind_run.
  destruct (promise_all_isGitRepository H folders w) as (bs & -> & _).
  destruct (forallb negb bs); [discriminate|].
  destruct (warn_then_choose_run H
              (localize H "notfound"
                 "Git not found. Install it or configure it using the 'git.path' setting."
                 [])
              (localize H "downloadgit" "Download Git" [])
              (localize H "neverShowAgain" "Don't Show Again" [])
              "ignoreMissingGitWarning" w) as (r & w2 & -> & _ & Hr).
  intros [= -> ->]. destruct Hr as [?|(e' & [= <-] & Hr)]; [discriminate|exact Hr].
Qed.

Lemma contains_nil_inv (sub : jsstring) : contains [] sub → sub = [].
Proof.
  intros (pre & post & Hs). symmetry in Hs.
  apply app_eq_nil in Hs as [_ Hs]. by apply app_eq_nil in Hs as [? _].
Qed.

(** A message that contains the text is a string, which [console.warn]
    prints as it is. *)
Lemma message_of_not_found (m : option jsstring) :
  contains (or_empty m) git_not_found → to_string m = or_empty m.
Proof.
  destruct m as [s|]; [done|]. intros Hc. by apply contains_nil_inv in Hc.
Qed.

(** The [catch] of [activate], for a thrown value that has properties. *)
Lemma activate_body_catch w m t w1 :
  createModel H w = (Throw (Thrown m t), w1) →
  activate_body H w =
  if test re_not_found (or_empty m)
  then match warnAboutMissingGit H
               (add_effects [ConsoleWarn (to_string m); AppendLine (to_string m)] w1)
       with
       | (Normal _, w2) => (Normal (createGitExtension None), w2)
       | (Throw e, w2) => (Throw e, w2)
       end
  else (Throw (Thrown m t), w1).
Proof.
  intros Hmodel. unfold activate_body, try_catch. rewrite bind_run, Hmodel.
  rewrite bind_run. cbn [get_message]. cbn beta iota.
  destruct (test re_not_found (or_empty m)); cbn [negb]; [|reflexivity].
  rewrite bind_run. unfold emit at 1. cbn beta iota.
  rewrite bind_run. unfold emit at 1. cbn beta iota.
  rewrite add_effects_app. cbn [app]. rewrite bind_run.
  by destruct (warnAboutMissingGit H _) as [[[]|e] w2].
Qed.

(** The [catch] of [activate], for a thrown [null] or [undefined]:
    reading [err.message] throws, and that is what reaches the caller. *)
Lemma activate_body_catch_nullish w err w1 :
  createModel H w = (Throw err, w1) →
  (err = ThrownNull → activate_body H w = (Throw (type_error (lit "null")), w1))
  ∧ (err = ThrownUndefined →
     activate_body H w = (Throw (type_error (lit "undefined")), w1)).
Proof.
  intros Hmodel. unfold activate_body, try_catch. rewrite bind_run, Hmodel.
  split; intros ->; reflexivity.
Qed.

(** C5, as amended. When activation has entered its [try] and
    [createModel] rejects with a value that is not [null] or
    [undefined]: if the message of the failure contains [Git
    installation not found], the failure is handled there; activation
    logs the message, goes through [warnAboutMissingGit] and ends as it
    does, with a [GitExtension] (without a model) when it resolves and
    with its rejection when it rejects, which it does only with a
    rejection of its prompt or of its settings write. If the message
    does not contain the text, the same failure is re-raised to the
    caller of [activate]. *)
Theorem activate_recovers_only_from_git_not_found changes (w0 w : World P) m t w1 :
  enters_try H changes w0 w →
  createModel H w = (Throw (Thrown m t), w1) →
  (contains (or_empty m) git_not_found →
   activate H changes w0
   = recovered H (add_effects [ConsoleWarn (or_empty m); AppendLine (or_empty m)] w1)
   ∧ ∀ e w2,
       warnAboutMissingGit H
         (add_effects [ConsoleWarn (or_empty m); AppendLine (or_empty m)] w1)
       = (Throw e, w2) →
       answer H (missing_prompt H) (host w1) = Throw e
       ∨ ∃ s p, (config_write H "ignoreMissingGitWarning" true true s p).1 = Throw e)
  ∧ (¬ contains (or_empty m) git_not_found →
     activate H changes w0 = Settled (Throw (Thrown m t)) w1).
Proof.
  intros (enabled & wp & Hprelude & Hgate) Hmodel.
  unfold activate. rewrite Hprelude, Hgate, (activate_body_catch w m t w1 Hmodel).
  split; intros Hc.
  - rewrite (proj2 (JsFacts.test_not_found _) Hc), (message_of_not_found m Hc).
    split.
    + unfold recovered, settle.
      by destruct (warnAboutMissingGit H _) as [[[]|e] w2].
    + intros e w2 Hwarn. by apply warnAboutMissingGit_rejects in Hwarn.
  - destruct (test re_not_found (or_empty m)) eqn:Htest; [|reflexivity].
    by apply JsFacts.test_not_found in Htest.
Qed.

Lemma activate_prelude_run w0 :
  ∃ wp, activate_prelude H w0 = (Normal (settings w0 !! "enabled"), wp)
        ∧ settings wp = settings w0
        ∧ effects wp = effects w0 ++
            [PushDisposable DSubscription; CreateOutputChannel "Git";
             RegisterCommand "git.showOutput"; PushDisposable DOutputChannel].
Proof.
  eexists. split; [reflexivity|]. split; [reflexivity|].
  simpl. by rewrite <- !app_assoc.
Qed.

Lemma js_not_false (v : option bool) : js_not v = false ↔ v = Some true.
Proof. destruct v as [[|]|]; simpl; split; congruence. Qed.

Lemma await_enabled_open w changes : await_enabled changes (Some true) w = Some w.
Proof. reflexivity. Qed.

Lemma await_enabled_skip c changes enabled w :
  js_not enabled = true → ¬ enables c →
  await_enabled (c :: changes) enabled w = await_enabled changes enabled w.
Proof.
  intros Hnot Hc. unfold await_enabled. rewrite Hnot.
  unfold onDidChangeConfiguration, filterEvent, eventToPromise. cbn [map List.filter fst snd].
  destruct (affectsConfiguration (change_event c) "git") eqn:Haff; [|reflexivity].
  cbn [List.filter fst snd settings set_settings].
  destruct (strict_eq_true (change_settings c !! "enabled")) eqn:Hen; [|reflexivity].
  exfalso. apply Hc. split; [done|]. by apply strict_eq_true_spec.
Qed.

Lemma await_enabled_first before c after enabled w :
  js_not enabled = true → Forall (λ c', ¬ enables c') before → enables c →
  await_enabled (before ++ c :: after) enabled w
  = Some (set_settings (change_settings c) w).
Proof.
  intros Hnot Hbefore [Haff Hen].
  induction Hbefore as [|c' before Hc' _ IH]; simpl.
  - unfold await_enabled. rewrite Hnot.
    unfold onDidChangeConfiguration, filterEvent, eventToPromise.
    cbn [map List.filter fst snd]. rewrite Haff.
    cbn [List.filter fst snd settings set_settings]. rewrite Hen. reflexivity.
  - by rewrite await_enabled_skip.
Qed.

Lemma await_enabled_never changes enabled w :
  js_not enabled = true → Forall (λ c, ¬ enables c) changes →
  await_enabled changes enabled w = None.
Proof.
  intros Hnot Hall. induction Hall as [|c changes Hc _ IH].
  - unfold await_enabled. by rewrite Hnot.
  - by rewrite await_enabled_skip.
Qed.

(** C8. If the enablement setting is [true] when activation starts,
    activation goes on at once, whatever configuration changes follow.
    Otherwise it is suspended; it goes on upon the first configuration
    change that affects section [git] and finds the setting [true], in
    the world of that change; and as long as no such change happens (in
    particular while the setting stays disabled) it stays suspended in
    the world its first lines left, where nothing of [createModel] has
    run. *)
Theorem activation_waits_for_enablement (w0 : World P) :
  let wp := (activate_prelude H w0).2 in
  effects wp = effects w0 ++
     [PushDisposable DSubscription; CreateOutputChannel "Git";
      RegisterCommand "git.showOutput"; PushDisposable DOutputChannel]
  ∧ (settings w0 !! "enabled" = Some true →
     ∀ changes, activate H changes w0 = settle (activate_body H wp))
  ∧ (settings w0 !! "enabled" ≠ Some true →
     (∀ before c after,
        Forall (λ c', ¬ enables c') before → enables c →
        activate H (before ++ c :: after) w0
        = settle (activate_body H (set_settings (change_settings c) wp)))
     ∧ (∀ changes,
          Forall (λ c, ¬ enables c) changes →
          activate H changes w0 = Pending wp)
     ∧ (∀ changes,
          Forall (λ c, change_settings c !! "enabled" ≠ Some true) changes →
          activate H changes w0 = Pending wp)).
Proof.
  destruct (activate_prelude_run w0) as (wp & Hprelude & Hsettings & Heffects).
  unfold activate. rewrite Hprelude. cbn [snd]. split; [exact Heffects|]. split.
  - intros -> changes. by rewrite await_enabled_open.
  - intros Hdisabled.
    assert (js_not (settings w0 !! "enabled") = true) as Hnot.
    { destruct (js_not _) eqn:Hn; [done|]. by apply js_not_false in Hn. }
    split; [|split].
    + intros before c after Hbefore Hc. by rewrite await_enabled_first.
    + intros changes Hall. by rewrite await_enabled_never.
    + intros changes Hall. rewrite await_enabled_never; [done|done|].
      eapply Forall_impl; [exact Hall|]. intros c Hc [_ Hen]. done.
Qed.

End Activation.

(* ===================================================================== *)
(** ** The teardown registry                                              *)
(* ===================================================================== *)

Section Teardown.
Context {P : Type}.
Implicit Types (w : World P) (tasks : list (@Task P))
  (log : list (nat * Completion unit)).

Lemma task_calls_app es1 es2 :
  task_calls (es1 ++ es2) = task_calls es1 ++ task_calls es2.
Proof. apply omap_app. Qed.

Lemma run_tasks_trace tasks : ∀ i w,
  ∃ delta,
    effects (run_tasks tasks i w).2 = effects w ++ delta
    ∧ task_trace tasks i (host w) (task_calls delta)
        (run_tasks tasks i w).1 (host (run_tasks tasks i w).2).
Proof.
  induction tasks as [|t tasks IH]; intros i w.
  - exists []. simpl. by rewrite app_nil_r.
  - cbn [run_tasks]. rewrite bind_run. unfold call_task.
    cbn [task_trace].
    destruct (t (host w)) as [o h] eqn:Ht. cbn [fst snd].
    destruct o as [[]|e].
    + destruct (IH (S i) (add_effects [CallTask i (Normal tt)] (set_host h w)))
        as (delta & Heff & Htrace).
      exists (CallTask i (Normal tt) :: delta). split.
      * rewrite Heff. simpl. by rewrite <- app_assoc.
      * simpl. eexists. split; [reflexivity|]. exact Htrace.
    + exists [CallTask i (Throw e)]. split; [reflexivity|].
      simpl. eexists. split; [reflexivity|]. done.
Qed.

Lemma task_trace_length tasks : ∀ i p log r p',
  task_trace tasks i p log r p' → (length log ≤ length tasks)%nat.
Proof.
  induction tasks as [|t tasks IH]; intros i p log r p'; simpl.
  - by intros [-> _].
  - intros (log' & -> & Hrest). simpl.
    destruct (t p).1 as [u|e]; [apply IH in Hrest; lia|].
    destruct Hrest as [-> _]. simpl. lia.
Qed.

Lemma task_trace_lookup tasks : ∀ i p log r p' k j o,
  task_trace tasks i p log r p' → log !! k = Some (j, o) →
  j = (i + k)%nat ∧ ∃ t q, tasks !! k = Some t ∧ (t q).1 = o.
Proof.
  induction tasks as [|t tasks IH]; intros i p log r p' k j o; simpl.
  - by intros [-> _].
  - intros (log' & -> & Hrest) Hk. destruct k as [|k]; simpl in Hk.
    + injection Hk as <- <-. split; [lia|]. by exists t, p.
    + destruct (t p).1 as [u|e].
      * destruct (IH _ _ _ _ _ _ _ _ Hrest Hk) as [-> Ht]. split; [lia|done].
      * destruct Hrest as [-> _]. done.
Qed.

Lemma task_trace_failure tasks : ∀ i p log r p' pre j e post,
  task_trace tasks i p log r p' → log = pre ++ (j, Throw e) :: post →
  post = [] ∧ r = Throw e.
Proof.
  induction tasks as [|t tasks IH]; intros i p log r p' pre j e post; simpl.
  - intros [-> _] Hlog. by destruct pre.
  - intros (log' & -> & Hrest) Hlog.
    destruct pre as [|c pre]; simpl in Hlog.
    + injection Hlog as _ Ho ->. rewrite Ho in Hrest. by destruct Hrest as (? & ? & _).
    + injection Hlog as <- ->. destruct (t p).1 as [u|e'].
      * by eapply IH.
      * destruct Hrest as [Hnil _]. by destruct pre.
Qed.

Lemma task_trace_rejects tasks : ∀ i p log r p' e,
  task_trace tasks i p log r p' → r = Throw e →
  ∃ pre j, log = pre ++ [(j, Throw e)].
Proof.
  induction tasks as [|t tasks IH]; intros i p log r p' e; simpl.
  - by intros (_ & -> & _).
  - intros (log' & -> & Hrest) Hr. destruct (t p).1 as [u|e'].
    + destruct (IH _ _ _ _ _ _ Hrest Hr) as (pre & j & ->).
      by exists ((i, Normal u) :: pre), j.
    + destruct Hrest as (-> & -> & _). injection Hr as ->. by exists [], i.
Qed.

Lemma task_trace_success tasks : ∀ i p log r p',
  task_trace tasks i p log r p' →
  (r = Normal tt ↔ length log = length tasks ∧ ∀ c, c ∈ log → c.2 = Normal tt).
Proof.
  induction tasks as [|t tasks IH]; intros i p log r p'; simpl.
  - intros (-> & -> & _). split; [|done]. intros _. split; [done|].
    intros c Hc. by apply elem_of_nil in Hc.
  - intros (log' & -> & Hrest). destruct (t p).1 as [[]|e].
    + rewrite (IH _ _ _ _ _ Hrest). simpl. split.
      * intros [Hlen Hall]. split; [by rewrite Hlen|].
        intros c [->|Hc]%elem_of_cons; [done|by apply Hall].
      * intros [Hlen Hall]. split; [lia|].
        intros c Hc. apply Hall. by right.
    + destruct Hrest as (-> & -> & _). split; [discriminate|].
      intros [_ Hall]. specialize (Hall (i, Throw e)). simpl in Hall.
      discriminate Hall. by left.
Qed.

Lemma task_trace_runs_until_failure tasks p log r p' :
  task_trace tasks 0 p log r p' → runs_until_failure tasks log r.
Proof.
  intros Htrace. split; [|split; [|split; [|split]]].
  - by eapply task_trace_length.
  - intros k i o Hk. by destruct (task_trace_lookup _ _ _ _ _ _ _ _ _ Htrace Hk).
  - intros pre i e post. by eapply task_trace_failure.
  - intros e. by eapply task_trace_rejects.
  - by eapply task_trace_success.
Qed.

(** C3, as amended. [deactivate] calls and awaits the registered tasks
    strictly in registration order, each on the state the one before it
    left, up to and including the first one that rejects: when a task
    rejects, [deactivate] rejects with the same failure at once and no
    later-registered task is called; it rejects only so, with the
    failure of the last task called; a task is called only when all
    before it resolved, and [deactivate] resolves exactly when every
    task was called and resolved. *)
Theorem deactivate_runs_until_first_failure w :
  ∃ delta,
    effects (deactivate w).2 = effects w ++ delta
    ∧ task_trace (deactivateTasks w) 0 (host w) (task_calls delta)
        (deactivate w).1 (host (deactivate w).2)
    ∧ runs_until_failure (deactivateTasks w) (task_calls delta) (deactivate w).1.
Proof.
  unfold deactivate.
  destruct (run_tasks_trace (deactivateTasks w) 0 w) as (delta & Heff & Htrace).
  exists delta. split; [done|]. split; [done|].
  by eapply task_trace_runs_until_failure.
Qed.

End Teardown.

(** C3, as stated, fails: with two registered tasks of which the first
    rejects, only the first is called; the second, registered later, is
    not called, and [deactivate] rejects. *)
Lemma deactivate_calls_every_task_counterexample :
  length (deactivateTasks Fixture.world_two_tasks) = 2%nat
  ∧ map fst (task_calls (effects (deactivate Fixture.world_two_tasks).2)) = [0%nat]
  ∧ map fst (task_calls (effects (deactivate Fixture.world_two_tasks).2))
      ≠ seq 0 (length (deactivateTasks Fixture.world_two_tasks))
  ∧ (deactivate Fixture.world_two_tasks).1 ≠ Normal tt.
Proof.
  split; [reflexivity|]. split; [reflexivity|]. split.
  - vm_compute. discriminate.
  - vm_compute. discriminate.
Qed.

(* ===================================================================== *)
(** ** The theorems at work on the small outside world                    *)
(* ===================================================================== *)

Section Witnesses.
Import Fixture.

Lemma fixture_healthy : healthy (fixture_host []) global_config.
Proof.
  intros git cwd key value p. eexists _, _. split; [reflexivity|].
  split; reflexivity.
Qed.

Lemma checkGitVersion_prompts_legacy_only_witness :
  (∃ prompt r w',
     checkGitVersion (fixture_host []) git_1_9 world_legacy = (r, w')
     ∧ prompts (effects w') = prompts (effects world_legacy) ++ [prompt]
     ∧ (r = Normal tt
        ∨ ∃ e, r = Throw e
            ∧ (answer (fixture_host []) (legacy_prompt (fixture_host []) git_1_9)
                 (host world_legacy) = Throw e
               ∨ ∃ s p, (config_write (fixture_host []) "ignoreLegacyWarning"
                           true true s p).1 = Throw e)))
  ∧ checkGitVersion (fixture_host []) git_2_30 world_modern = (Normal tt, world_modern).
Proof.
  split.
  - apply (proj1 (checkGitVersion_prompts_legacy_only
                    (fixture_host []) git_1_9 world_legacy)).
    split.
    + exists (lit ".9.5"). right. reflexivity.
    + intros Hflag. vm_compute in Hflag. discriminate Hflag.
  - apply (proj2 (checkGitVersion_prompts_legacy_only
                    (fixture_host []) git_2_30 world_modern)).
    left. intros [rest [Hv|Hv]]; vm_compute in Hv; discriminate Hv.
Defined.

Lemma warnAboutMissingGit_silent_without_repository_witness :
  warnAboutMissingGit (fixture_host []) world_plain_folder
  = (Normal tt, world_plain_folder).
Proof.
  apply (proj2 (warnAboutMissingGit_silent_without_repository
                  (fixture_host []) world_plain_folder)).
  right. right. exists [folder (lit "file") (lit "/home/user/notes")].
  split; [reflexivity|].
  intros f Hf. apply list_elem_of_singleton in Hf. subst f.
  intros (_ & st & Hstat & _). vm_compute in Hstat. discriminate Hstat.
Defined.

Lemma activate_recovers_only_from_git_not_found_witness :
  activate (fixture_host []) [] world_no_git
  = recovered (fixture_host [])
      (add_effects
         [ConsoleWarn (lit "Git installation not found.");
          AppendLine (lit "Git installation not found.")]
         (createModel (fixture_host [])
            (activate_prelude (fixture_host []) world_no_git).2).2)
  ∧ activate (fixture_host []) [] world_broken_git
    = Settled (Throw enoent)
        (createModel (fixture_host [])
           (activate_prelude (fixture_host []) world_broken_git).2).2.
Proof.
  split.
  - apply (proj1 (proj1 (activate_recovers_only_from_git_not_found
                    (fixture_host []) [] world_no_git
                    (activate_prelude (fixture_host []) world_no_git).2
                    (Some (lit "Git installation not found."))
                    (lit "Error: Git installation not found.")
                    (createModel (fixture_host [])
                       (activate_prelude (fixture_host []) world_no_git).2).2
                    ltac:(eexists _, _; split; reflexivity)
                    ltac:(reflexivity))
                  ltac:(exists [], (lit "."); reflexivity))).
  - apply (proj2 (activate_recovers_only_from_git_not_found
                    (fixture_host []) [] world_broken_git
                    (activate_prelude (fixture_host []) world_broken_git).2
                    (Some (lit "ENOENT: no such file or directory"))
                    (lit "Error: ENOENT: no such file or directory")
                    (createModel (fixture_host [])
                       (activate_prelude (fixture_host []) world_broken_git).2).2
                    ltac:(eexists _, _; split; reflexivity)
                    ltac:(reflexivity))).
    intros Hc. apply JsFacts.test_not_found in Hc. vm_compute in Hc. discriminate Hc.
Defined.

Lemma activation_waits_for_enablement_witness :
  activate (fixture_host []) [] world_no_git
  = settle (activate_body (fixture_host [])
              (activate_prelude (fixture_host []) world_no_git).2)
  ∧ activate (fixture_host []) [still_disabled; now_enabled; still_disabled] world_disabled
    = settle (activate_body (fixture_host [])
                (set_settings (change_settings now_enabled)
                   (activate_prelude (fixture_host []) world_disabled).2))
  ∧ activate (fixture_host []) [still_disabled; still_disabled] world_disabled
    = Pending (activate_prelude (fixture_host []) world_disabled).2.
Proof.
  split; [|split].
  - apply (proj1 (proj2 (activation_waits_for_enablement (fixture_host []) world_no_git))).
    reflexivity.
  - apply (proj1 (proj2 (proj2 (activation_waits_for_enablement
                                  (fixture_host []) world_disabled))
                    ltac:(intros He; vm_compute in He; discriminate He))
             [still_disabled] now_enabled [still_disabled]).
    + constructor; [|constructor].
      intros [_ He]. vm_compute in He. discriminate He.
    + split; reflexivity.
  - apply (proj2 (proj2 (proj2 (proj2 (activation_waits_for_enablement
                                         (fixture_host []) world_disabled))
                           ltac:(intros He; vm_compute in He; discriminate He)))).
    repeat constructor; intros He; vm_compute in He; discriminate He.
Defined.


Lemma tool_selected_only_after_command_written_witness :
  (∃ j value, (j < 1)%nat
     ∧ execs (effects (setVsCodeAsGitDiffTool (fixture_host []) the_git None
                         world_modern).2) !! j
       = Some ([lit "config"; lit "--global"; lit "difftool.vscode.cmd"; value], true))
  ∧ (∃ j value, (j < 1)%nat
     ∧ execs (effects (setVsCodeAsGitMergeTool (fixture_host [lit "merge.tool"]) the_git
                         None world_modern).2) !! j
       = Some ([lit "config"; lit "--global"; lit "mergetool.vscode.cmd"; value], true)).
Proof.
  split.
  - apply (proj1 (tool_selected_only_after_command_written
                    (fixture_host []) the_git None world_modern)
             (setVsCodeAsGitDiffTool (fixture_host []) the_git None world_modern).1
             (setVsCodeAsGitDiffTool (fixture_host []) the_git None world_modern).2
             _ 1%nat true); reflexivity.
  - apply (proj2 (tool_selected_only_after_command_written
                    (fixture_host [lit "merge.tool"]) the_git None world_modern)
             (setVsCodeAsGitMergeTool (fixture_host [lit "merge.tool"]) the_git None
                world_modern).1
             (setVsCodeAsGitMergeTool (fixture_host [lit "merge.tool"]) the_git None
                world_modern).2
             _ 1%nat false); reflexivity.
Defined.

(** The end-to-end scenario of the design document: no git, one open
    folder with a [.git] directory, the dismissal flag unset. The
    recovery prompts once; the user chooses not to be asked again, the
    flag is persisted as [true], and a second run prompts no more. *)
Example missing_git_prompt_is_dismissed_for_good :
  let w0 := world (outside (Throw not_found) [lit "/home/user/project/.git"]
                     [Some (lit "Don't Show Again")])
                  ∅ (Some [folder (lit "file") (lit "/home/user/project")]) in
  let w1 := (warnAboutMissingGit (fixture_host []) w0).2 in
  let w2 := (warnAboutMissingGit (fixture_host []) w1).2 in
  length (prompts (effects w1)) = 1%nat
  ∧ settings w1 !! "ignoreMissingGitWarning" = Some true
  ∧ w2 = w1.
Proof. vm_compute. repeat split. Qed.

End Witnesses.

(** C5, as stated, fails. With no git, an open folder that is a
    repository and a prompt that rejects, the failure of [createModel]
    carries the text and is handled, but the recovery rejects and so
    does activation: it does not resolve with a [GitExtension]. And when
    what [createModel] throws is [null], reading its message throws: what
    reaches the caller is a [TypeError], not the failure itself. *)
Lemma activate_recovers_only_from_git_not_found_counterexample :
  (createModel Scenarios.host_without_prompt
     (activate_prelude Scenarios.host_without_prompt Scenarios.world_repository).2).1
  = Throw Fixture.not_found
  ∧ test re_not_found (lit "Git installation not found.") = true
  ∧ outcome_of (activate Scenarios.host_without_prompt [] Scenarios.world_repository)
    = Some (Throw Scenarios.prompt_failed)
  ∧ (createModel (Fixture.fixture_host [])
       (activate_prelude (Fixture.fixture_host []) Scenarios.world_null_failure).2).1
    = Throw ThrownNull
  ∧ outcome_of (activate (Fixture.fixture_host []) [] Scenarios.world_null_failure)
    = Some (Throw (type_error (lit "null")))
  ∧ type_error (lit "null") ≠ ThrownNull.
Proof.
  split; [reflexivity|]. split; [reflexivity|]. split; [reflexivity|].
  split; [reflexivity|]. split; [reflexivity|]. discriminate.
Qed.

(* ===================================================================== *)
(** ** The answers to the two warnings                                    *)
(* ===================================================================== *)

Section Answers.
Context {P : Type} (H : Host P).
Implicit Types (w : World P) (info : IGit).

Lemma checkGitVersion_ignored info w :
  settings w !! "ignoreLegacyWarning" = Some true →
  checkGitVersion H info w = (Normal tt, w).
Proof.
  intros Hflag. unfold checkGitVersion. rewrite bind_run.
  unfold config_get, reads. cbn zeta. by rewrite Hflag.
Qed.

Lemma checkGitVersion_asks info w :
  legacy_version (version info) →
  settings w !! "ignoreLegacyWarning" ≠ Some true →
  checkGitVersion H info w =
  (choice ← showWarningMessage H (legacy_prompt H info).1
              [localize H "updateGit" "Update Git" [];
               localize H "neverShowAgain" "Don't Show Again" []];
   if strict_eq_string choice (localize H "updateGit" "Update Git" [])
   then emit (ExecuteCommand "vscode.open" [lit "https://git-scm.com/"])
   else if strict_eq_string choice (localize H "neverShowAgain" "Don't Show Again" [])
        then config_update H "ignoreLegacyWarning" true true
        else mret tt) w.
Proof.
  intros Hlegacy Hflag. apply JsFacts.test_legacy in Hlegacy.
  unfold checkGitVersion at 1. rewrite bind_run. unfold config_get, reads. cbn zeta.
  destruct (strict_eq_true (settings w !! "ignoreLegacyWarning")) eqn:Hignore.
  { by apply strict_eq_true_spec in Hignore. }
  rewrite Hlegacy. reflexivity.
Qed.

(** A warning answered with its second choice, when the write of the
    flag resolves. *)
Lemma warn_then_choose_dismissed msg first second (key : string) w s :
  answer H (msg, [first; second]) (host w) = Normal (Some second) →
  second ≠ first →
  dismissal H key (msg, [first; second]) w = Normal s →
  ∃ w',
    (choice ← showWarningMessage H msg [first; second];
     if strict_eq_string choice first
     then emit (ExecuteCommand "vscode.open" [lit "https://git-scm.com/"])
     else if strict_eq_string choice second
          then config_update H key true true
          else mret tt) w = (Normal tt, w')
    ∧ settings w' = s
    ∧ effects w' = effects w ++ [WarningMessage msg [first; second];
                                 ConfigUpdate key true true].
Proof.
  intros Hanswer Hlabels Hwrite. rewrite warn_then_choose_exact. cbn zeta.
  rewrite Hanswer.
  rewrite (proj2 (strict_eq_string_false _ _)) by congruence.
  rewrite (proj2 (strict_eq_string_true _ _)) by reflexivity.
  rewrite config_update_run. cbn zeta.
  unfold dismissal, after_prompt in Hwrite. cbn [fst snd] in Hwrite.
  cbn [settings host set_host add_effects]. rewrite Hwrite.
  eexists. split; [reflexivity|]. split; [reflexivity|].
  simpl. by rewrite <- app_assoc.
Qed.

(** A warning answered otherwise. *)
Lemma warn_then_choose_kept msg first second (key : string) w choice :
  answer H (msg, [first; second]) (host w) = Normal choice →
  choice = Some first ∨ choice ≠ Some second →
  ∃ w' delta,
    (choice ← showWarningMessage H msg [first; second];
     if strict_eq_string choice first
     then emit (ExecuteCommand "vscode.open" [lit "https://git-scm.com/"])
     else if strict_eq_string choice second
          then config_update H key true true
          else mret tt) w = (Normal tt, w')
    ∧ settings w' = settings w
    ∧ effects w' = effects w ++ delta
    ∧ config_updates delta = []
    ∧ prompts delta = [(msg, [first; second])].
Proof.
  intros Hanswer Hchoice. rewrite warn_then_choose_exact. cbn zeta.
  rewrite Hanswer.
  destruct (strict_eq_string choice first) eqn:Hfirst.
  - eexists _, [_; _]. split; [reflexivity|]. split; [reflexivity|].
    split; [simpl; by rewrite <- app_assoc|]. split; reflexivity.
  - destruct (strict_eq_string choice second) eqn:Hsecond.
    + exfalso. apply strict_eq_string_true in Hsecond.
      apply strict_eq_string_false in Hfirst. destruct Hchoice; congruence.
    + eexists _, [_]. split; [reflexivity|]. split; [reflexivity|].
      split; [reflexivity|]. split; reflexivity.
Qed.

(** X1. When the legacy warning is shown, the user answers "Don't Show
    Again" (and that label is not also the label of "Update Git") and
    the write of the setting resolves, [checkGitVersion] resolves, has
    written [ignoreLegacyWarning] to [true] at global scope and has done
    nothing else after the prompt; when the settings then show the flag
    as [true], [checkGitVersion] is from then on a no-op, for any
    version and any outside state, as long as the flag stays [true]. *)
Theorem legacy_warning_dismissed_for_good info w s :
  legacy_version (version info) →
  settings w !! "ignoreLegacyWarning" ≠ Some true →
  answer H (legacy_prompt H info) (host w)
    = Normal (Some (localize H "neverShowAgain" "Don't Show Again" [])) →
  localize H "neverShowAgain" "Don't Show Again" [] ≠ localize H "updateGit" "Update Git" [] →
  dismissal H "ignoreLegacyWarning" (legacy_prompt H info) w = Normal s →
  let w1 := (checkGitVersion H info w).2 in
  (checkGitVersion H info w).1 = Normal tt
  ∧ settings w1 = s
  ∧ effects w1 = effects w ++
      [WarningMessage (legacy_prompt H info).1 (legacy_prompt H info).2;
       ConfigUpdate "ignoreLegacyWarning" true true]
  ∧ (s !! "ignoreLegacyWarning" = Some true →
     ∀ info' w2,
       settings w2 !! "ignoreLegacyWarning" = settings w1 !! "ignoreLegacyWarning" →
       checkGitVersion H info' w2 = (Normal tt, w2)).
Proof.
  intros Hlegacy Hflag Hanswer Hlabels Hwrite.
  rewrite (checkGitVersion_asks info w Hlegacy Hflag).
  destruct (warn_then_choose_dismissed (legacy_prompt H info).1 _ _ _ w s
              Hanswer Hlabels Hwrite)
    as (w' & -> & Hs & He).
  cbn zeta. cbn [fst snd]. split; [reflexivity|]. split; [exact Hs|].
  split; [exact He|].
  intros Hshown info' w2 Hsame. apply checkGitVersion_ignored.
  by rewrite Hsame, Hs.
Qed.

(** X2. When the legacy warning is shown and the user answers "Update
    Git" or anything but "Don't Show Again" (closing the prompt
    included), [checkGitVersion] resolves and no setting is written: the
    settings are as before, and the next [checkGitVersion] for that
    version prompts again. *)
Theorem legacy_warning_asks_again info w choice :
  legacy_version (version info) →
  settings w !! "ignoreLegacyWarning" ≠ Some true →
  answer H (legacy_prompt H info) (host w) = Normal choice →
  (choice = Some (localize H "updateGit" "Update Git" [])
   ∨ choice ≠ Some (localize H "neverShowAgain" "Don't Show Again" [])) →
  let w1 := (checkGitVersion H info w).2 in
  (checkGitVersion H info w).1 = Normal tt
  ∧ settings w1 = settings w
  ∧ (∃ delta, effects w1 = effects w ++ delta ∧ config_updates delta = []
              ∧ prompts delta = [legacy_prompt H info])
  ∧ prompts (effects (checkGitVersion H info w1).2)
    = prompts (effects w1) ++ [legacy_prompt H info].
Proof.
  intros Hlegacy Hflag Hanswer Hchoice.
  assert (∀ w', settings w' !! "ignoreLegacyWarning" ≠ Some true →
            prompts (effects (checkGitVersion H info w').2)
            = prompts (effects w') ++ [legacy_prompt H info]) as Hprompt.
  { intros w' Hflag'. rewrite (checkGitVersion_asks info w' Hlegacy Hflag').
    destruct (warn_then_choose_run H (legacy_prompt H info).1
                (localize H "updateGit" "Update Git" [])
                (localize H "neverShowAgain" "Don't Show Again" [])
                "ignoreLegacyWarning" w') as (r & w2 & -> & Hp & _).
    exact Hp. }
  rewrite (checkGitVersion_asks info w Hlegacy Hflag) in *.
  destruct (warn_then_choose_kept (legacy_prompt H info).1 _ _ "ignoreLegacyWarning"
              w choice Hanswer Hchoice)
    as (w' & delta & Hrun & Hs & He & Hu & Hp).
  rewrite Hrun. cbn zeta. cbn [fst snd].
  split; [reflexivity|]. split; [exact Hs|]. split; [by exists delta|].
  apply Hprompt. by rewrite Hs.
Qed.

Lemma some_qualifies folders (bs : list bool) p :
  Forall2 (λ folder b, b = true ↔ qualifies H p folder) folders bs →
  (∃ f, f ∈ folders ∧ qualifies H p f) →
  forallb negb bs = false.
Proof.
  induction 1 as [|folder b folders bs Hb _ IH]; intros (f & Hf & Hq).
  - by apply elem_of_nil in Hf.
  - simpl. apply elem_of_cons in Hf as [->|Hf].
    + by rewrite (proj2 Hb Hq).
    + rewrite IH by eauto. apply andb_false_r.
Qed.

Lemma warnAboutMissingGit_ignored w :
  settings w !! "ignoreMissingGitWarning" = Some true →
  warnAboutMissingGit H w = (Normal tt, w).
Proof.
  intros Hflag. unfold warnAboutMissingGit. rewrite bind_run.
  unfold config_get, reads. cbn zeta. by rewrite Hflag.
Qed.

Lemma warnAboutMissingGit_asks folders w :
  settings w !! "ignoreMissingGitWarning" ≠ Some true →
  workspaceFolders w = Some folders →
  (∃ f, f ∈ folders ∧ qualifies H (host w) f) →
  warnAboutMissingGit H w =
  (choice ← showWarningMessage H (missing_prompt H).1
              [localize H "downloadgit" "Download Git" [];
               localize H "neverShowAgain" "Don't Show Again" []];
   if strict_eq_string choice (localize H "downloadgit" "Download Git" [])
   then emit (ExecuteCommand "vscode.open" [lit "https://git-scm.com/"])
   else if strict_eq_string choice (localize H "neverShowAgain" "Don't Show Again" [])
        then config_update H "ignoreMissingGitWarning" true true
        else mret tt) w.
Proof.
  intros Hflag Hfolders Hsome.
  unfold warnAboutMissingGit at 1. rewrite bind_run. unfold config_get, reads. cbn zeta.
  destruct (strict_eq_true (settings w !! "ignoreMissingGitWarning")) eqn:Hignore.
  { by apply strict_eq_true_spec in Hignore. }
  rewrite bind_run, Hfolders. cbn iota beta. rewrite bind_run.
  destruct (promise_all_isGitRepository H folders w) as (bs & -> & Hbs).
  by rewrite (some_qualifies folders bs (host w) Hbs Hsome).
Qed.

(** X3. When the [ignoreMissingGitWarning] flag is not [true] and at
    least one open folder qualifies (scheme [file], [.git] a directory),
    [warnAboutMissingGit] presents exactly one prompt, however it ends:
    the "Git not found" message with the choices "Download Git" and
    "Don't Show Again". It rejects only when the prompt rejects or the
    write of the flag does. *)
Theorem warnAboutMissingGit_prompts_for_a_repository folders w :
  settings w !! "ignoreMissingGitWarning" ≠ Some true →
  workspaceFolders w = Some folders →
  (∃ f, f ∈ folders ∧ qualifies H (host w) f) →
  prompts (effects (warnAboutMissingGit H w).2)
  = prompts (effects w) ++ [missing_prompt H]
  ∧ ((warnAboutMissingGit H w).1 = Normal tt
     ∨ ∃ e, (warnAboutMissingGit H w).1 = Throw e
            ∧ (answer H (missing_prompt H) (host w) = Throw e
               ∨ ∃ s p, (config_write H "ignoreMissingGitWarning" true true s p).1
                        = Throw e)).
Proof.
  intros Hflag Hfolders Hsome.
  rewrite (warnAboutMissingGit_asks folders w Hflag Hfolders Hsome).
  destruct (warn_then_choose_run H (missing_prompt H).1
              (localize H "downloadgit" "Download Git" [])
              (localize H "neverShowAgain" "Don't Show Again" [])
              "ignoreMissingGitWarning" w) as (r & w2 & -> & Hp & Hr).
  cbn [fst snd]. split; [exact Hp|].
  destruct Hr as [->|(e & -> & Hr)]; [by left|right; by exists e].
Qed.

(** X4. When the missing-git warning is shown, the user answers "Don't
    Show Again" (and that label is not also the label of "Download
    Git") and the write of the setting resolves, [warnAboutMissingGit]
    resolves and has written [ignoreMissingGitWarning] to [true] at
    global scope; when the settings then show the flag as [true], it is
    from then on a no-op, whatever the folders and the outside state, as
    long as the flag stays [true]. *)
Theorem missing_git_warning_dismissed_for_good folders w s :
  settings w !! "ignoreMissingGitWarning" ≠ Some true →
  workspaceFolders w = Some folders →
  (∃ f, f ∈ folders ∧ qualifies H (host w) f) →
  answer H (missing_prompt H) (host w)
    = Normal (Some (localize H "neverShowAgain" "Don't Show Again" [])) →
  localize H "neverShowAgain" "Don't Show Again" []
    ≠ localize H "downloadgit" "Download Git" [] →
  dismissal H "ignoreMissingGitWarning" (missing_prompt H) w = Normal s →
  let w1 := (warnAboutMissingGit H w).2 in
  (warnAboutMissingGit H w).1 = Normal tt
  ∧ settings w1 = s
  ∧ effects w1 = effects w ++
      [WarningMessage (missing_prompt H).1 (missing_prompt H).2;
       ConfigUpdate "ignoreMissingGitWarning" true true]
  ∧ (s !! "ignoreMissingGitWarning" = Some true →
     ∀ w2,
       settings w2 !! "ignoreMissingGitWarning" = settings w1 !! "ignoreMissingGitWarning" →
       warnAboutMissingGit H w2 = (Normal tt, w2)).
Proof.
  intros Hflag Hfolders Hsome Hanswer Hlabels Hwrite.
  rewrite (warnAboutMissingGit_asks folders w Hflag Hfolders Hsome).
  destruct (warn_then_choose_dismissed (missing_prompt H).1 _ _ _ w s
              Hanswer Hlabels Hwrite)
    as (w' & -> & Hs & He).
  cbn zeta. cbn [fst snd]. split; [reflexivity|]. split; [exact Hs|].
  split; [exact He|].
  intros Hshown w2 Hsame. apply warnAboutMissingGit_ignored.
  by rewrite Hsame, Hs.
Qed.

End Answers.

(* ===================================================================== *)
(** ** What an activation leaves behind                                   *)
(* ===================================================================== *)

Section Shapes.
Context {P : Type} (H : Host P).
Implicit Types (w : World P) (info : IGit) (delta : list Effect).

Lemma extends_refl w : extends w w [].
Proof. unfold extends. by rewrite app_nil_r. Qed.

Lemma extends_trans w1 w2 w3 d1 d2 :
  extends w1 w2 d1 → extends w2 w3 d2 → extends w1 w3 (d1 ++ d2).
Proof.
  intros (He1 & Ht1 & Hf1 & Hp1) (He2 & Ht2 & Hf2 & Hp2). unfold extends.
  rewrite He2, He1, app_assoc. repeat split; congruence.
Qed.

Lemma extends_add_effects es w : extends w (add_effects es w) es.
Proof. by unfold extends. Qed.

Lemma registered_app es1 es2 : registered (es1 ++ es2) = registered es1 ++ registered es2.
Proof. apply omap_app. Qed.

Lemma config_updates_app es1 es2 :
  config_updates (es1 ++ es2) = config_updates es1 ++ config_updates es2.
Proof. apply omap_app. Qed.

Lemma one_warning_prompts prompt key delta :
  one_warning prompt key delta → prompts delta = [] ∨ prompts delta = [prompt].
Proof.
  destruct prompt as [msg items].
  intros [->|[->|[->| ->]]]; simpl; auto.
Qed.

Lemma one_warning_updates prompt key delta :
  one_warning prompt key delta →
  config_updates delta = [] ∨ config_updates delta = [(key, true, true)].
Proof. intros [->|[->|[->| ->]]]; simpl; auto. Qed.

Lemma one_warning_registered prompt key delta :
  one_warning prompt key delta → registered delta = [].
Proof. by intros [->|[->|[->| ->]]]. Qed.

(** A warning flow adds the prompt and at most one reaction to it,
    however it ends. *)
Lemma warn_then_choose_delta msg first second (key : string) w :
  ∃ r delta w',
    (choice ← showWarningMessage H msg [first; second];
     if strict_eq_string choice first
     then emit (ExecuteCommand "vscode.open" [lit "https://git-scm.com/"])
     else if strict_eq_string choice second
          then config_update H key true true
          else mret tt) w = (r, w')
    ∧ extends w w' delta ∧ one_warning (msg, [first; second]) key delta.
Proof.
  rewrite warn_then_choose_exact. cbn zeta.
  destruct (answer H (msg, [first; second]) (host w)) as [choice|e].
  2:{ eexists _, [_], _. split; [reflexivity|]. split; [by unfold extends|].
      right. by left. }
  destruct (strict_eq_string choice first).
  { eexists _, [_; _], _. split; [reflexivity|]. split.
    - unfold extends. simpl. by rewrite <- app_assoc.
    - right. right. by left. }
  destruct (strict_eq_string choice second).
  2:{ eexists _, [_], _. split; [reflexivity|]. split; [by unfold extends|].
      right. by left. }
  rewrite config_update_run. cbn zeta.
  destruct (config_write H key true true _ _) as [[s|e] h]; cbn [fst snd].
  - eexists _, [_; _], _. split; [reflexivity|]. split.
    + unfold extends. simpl. by rewrite <- app_assoc.
    + right. right. by right.
  - eexists _, [_; _], _. split; [reflexivity|]. split.
    + unfold extends. simpl. by rewrite <- app_assoc.
    + right. right. by right.
Qed.

Lemma checkGitVersion_delta info w :
  ∃ r delta w',
    checkGitVersion H info w = (r, w')
    ∧ extends w w' delta
    ∧ one_warning (legacy_prompt H info) "ignoreLegacyWarning" delta.
Proof.
  unfold checkGitVersion. rewrite bind_run. unfold config_get, reads. cbn zeta.
  destruct (strict_eq_true _).
  { exists (Normal tt), [], w. split; [reflexivity|].
    split; [apply extends_refl | by left]. }
  destruct (negb _).
  { exists (Normal tt), [], w. split; [reflexivity|].
    split; [apply extends_refl | by left]. }
  apply warn_then_choose_delta.
Qed.

Lemma warnAboutMissingGit_delta w :
  ∃ r delta w',
    warnAboutMissingGit H w = (r, w')
    ∧ extends w w' delta
    ∧ one_warning (missing_prompt H) "ignoreMissingGitWarning" delta.
Proof.
  unfold warnAboutMissingGit. rewrite bind_run. unfold config_get, reads. cbn zeta.
  destruct (strict_eq_true _).
  { exists (Normal tt), [], w. split; [reflexivity|].
    split; [apply extends_refl | by left]. }
  rewrite bind_run. destruct (workspaceFolders w) as [folders|]; cbn iota beta.
  2:{ exists (Normal tt), [], w. split; [reflexivity|].
      split; [apply extends_refl | by left]. }
  rewrite bind_run. destruct (promise_all_isGitRepository H folders w) as (bs & -> & _).
  destruct (forallb negb bs).
  { exists (Normal tt), [], w. split; [reflexivity|].
    split; [apply extends_refl | by left]. }
  apply warn_then_choose_delta.
Qed.

End Shapes.

Section CreateModel.
Context {P : Type} (H : Host P).
Implicit Types (w : World P) (info : IGit) (delta : list Effect).

(** [createModel], step by step. *)
Lemma createModel_run w :
  createModel H w =
  let found := findGit H (path_setting w) (host w) in
  let w1 := add_effects (looking H (path_setting w) found.1.1) (set_host found.2 w) in
  match found.1.2 with
  | Throw e => (Throw e, w1)
  | Normal info =>
      let got := askpass_getEnv H found.2 in
      let w2 := add_effects [PushDisposable DAskpass; CallGetEnv] (set_host got.2 w1) in
      match got.1 with
      | Throw e => (Throw e, w2)
      | Normal env =>
          let checked :=
            checkGitVersion H info
              (add_effects (wiring_effects H info (repositories_length H got.2)) w2) in
          match checked.1 with
          | Normal _ =>
              (Normal {| model_git := {| gitPath := path info;
                                         git_version := version info;
                                         env := env |} |},
               checked.2)
          | Throw e => (Throw e, checked.2)
          end
      end
  end.
Proof.
  unfold createModel. rewrite bind_run. unfold reads at 1. cbn beta iota.
  rewrite bind_run. unfold call_findGit at 1, looking.
  destruct (findGit H (path_setting w) (host w)) as [[candidates [info|e]] h1];
    cbn [fst snd]; cbn zeta; [|reflexivity].
  rewrite bind_run. unfold emit at 1. cbn beta iota.
  rewrite bind_run. unfold call_getEnv at 1. cbn [host add_effects set_host].
  destruct (askpass_getEnv H h1) as [[env|e] h2]; cbn [fst snd].
  2:{ f_equal. unfold add_effects, set_host. simpl. f_equal.
      by rewrite <- !app_assoc. }
  cbv beta iota zeta delta [mbind async_bind mret async_ret emit reads].
  rewrite !add_effects_app. cbn [app host add_effects set_host].
  match goal with
  | |- (let (c, w') := checkGitVersion H info ?wa in _)
       = match (checkGitVersion H info ?wb).1 with _ => _ end =>
      assert (wa = wb) as ->;
        [|by destruct (checkGitVersion H info wb) as [[[]|e] w']]
  end.
  unfold add_effects, set_host, wiring_effects. simpl.
  f_equal. rewrite <- !app_assoc.
  apply (f_equal (app (effects w))). simpl. apply f_equal.
  by rewrite <- app_assoc.
Qed.

End CreateModel.

Section ActivationOutcome.
Context {P : Type} (H : Host P).
Implicit Types (w : World P) (info : IGit) (delta : list Effect)
  (changes : list ConfigChange).

Lemma prompts_looking hint candidates : prompts (looking H hint candidates) = [].
Proof. unfold looking. simpl. induction candidates; [reflexivity|done]. Qed.

Lemma config_updates_looking hint candidates :
  config_updates (looking H hint candidates) = [].
Proof. unfold looking. simpl. induction candidates; [reflexivity|done]. Qed.

Lemma registered_looking hint candidates : registered (looking H hint candidates) = [].
Proof. unfold looking. simpl. induction candidates; [reflexivity|done]. Qed.

Lemma extends_looking_askpass w hint candidates h1 h2 :
  extends w
    (add_effects [PushDisposable DAskpass; CallGetEnv]
       (set_host h2 (add_effects (looking H hint candidates) (set_host h1 w))))
    (looking H hint candidates ++ [PushDisposable DAskpass; CallGetEnv]).
Proof. unfold extends. simpl. by rewrite <- !app_assoc. Qed.

(** X5. [createModel] rejects with the first failure it meets: that of
    [findGit]; when git was found, that of [askpass.getEnv]; when both
    resolved, that of the version check, which comes last. When
    [findGit] fails it has only logged the candidates; when [getEnv]
    fails it has also created the askpass helper; in neither case has it
    registered a command or prompted. When both resolve it has
    registered the four [git.setGit*] commands and ends with the version
    check; it then resolves, when the check does, with a model on the
    git that was found (its path, its version, the askpass
    environment). *)
Theorem createModel_rejects_with_its_first_failure w :
  let found := findGit H (path_setting w) (host w) in
  let seen := looking H (path_setting w) found.1.1 in
  ∃ delta,
    extends w (createModel H w).2 delta
    ∧ match found.1.2 with
      | Throw e => (createModel H w).1 = Throw e ∧ delta = seen
      | Normal info =>
          let got := askpass_getEnv H found.2 in
          match got.1 with
          | Throw e =>
              (createModel H w).1 = Throw e
              ∧ delta = seen ++ [PushDisposable DAskpass; CallGetEnv]
          | Normal env =>
              registered delta = git_set_commands
              ∧ (∃ tail,
                   delta = seen ++ [PushDisposable DAskpass; CallGetEnv]
                           ++ wiring_effects H info (repositories_length H got.2) ++ tail
                   ∧ one_warning (legacy_prompt H info) "ignoreLegacyWarning" tail)
              ∧ ∃ wc,
                  (createModel H w).2 = (checkGitVersion H info wc).2
                  ∧ match (checkGitVersion H info wc).1 with
                    | Normal _ =>
                        (createModel H w).1
                        = Normal {| model_git := {| gitPath := path info;
                                                    git_version := version info;
                                                    env := env |} |}
                    | Throw e => (createModel H w).1 = Throw e
                    end
          end
      end.
Proof.
  cbn zeta. rewrite createModel_run. cbn zeta.
  destruct (findGit H (path_setting w) (host w)) as [[candidates [info|e]] h1];
    cbn [fst snd].
  2:{ eexists. split; [apply (extends_add_effects _ (set_host h1 w))|done]. }
  destruct (askpass_getEnv H h1) as [[env|e] h2]; cbn [fst snd].
  2:{ eexists. split; [apply extends_looking_askpass|done]. }
  set (wc := add_effects (wiring_effects H info (repositories_length H h2))
               (add_effects [PushDisposable DAskpass; CallGetEnv]
                  (set_host h2
                     (add_effects (looking H (path_setting w) candidates)
                        (set_host h1 w))))).
  destruct (checkGitVersion_delta H info wc) as (r & tail & w' & Hrun & Hext & Htail).
  exists ((looking H (path_setting w) candidates ++ [PushDisposable DAskpass; CallGetEnv])
          ++ wiring_effects H info (repositories_length H h2) ++ tail).
  assert ((match (checkGitVersion H info wc).1 with
           | Normal _ =>
               (Normal {| model_git := {| gitPath := path info;
                                          git_version := version info;
                                          env := env |} |},
                (checkGitVersion H info wc).2)
           | Throw e => (Throw e, (checkGitVersion H info wc).2)
           end).2 = w') as Hw'.
  { rewrite Hrun. by destruct r. }
  split; [|split; [|split]].
  - rewrite Hw'. eapply extends_trans; [apply extends_looking_askpass|].
    eapply extends_trans; [apply extends_add_effects | exact Hext].
  - rewrite !registered_app, registered_looking,
      (one_warning_registered _ _ _ Htail). reflexivity.
  - exists tail. split; [by rewrite <- !app_assoc | exact Htail].
  - exists wc. rewrite Hrun. cbn [fst snd]. by destruct r.
Qed.

(** What [createModel] adds to the trace: a part without prompt and
    without settings write, then the version check. *)
Lemma createModel_shape w :
  ∃ r w' d1 d2 info,
    createModel H w = (r, w') ∧ extends w w' (d1 ++ d2)
    ∧ prompts d1 = [] ∧ config_updates d1 = []
    ∧ one_warning (legacy_prompt H info) "ignoreLegacyWarning" d2.
Proof.
  rewrite createModel_run. cbn zeta.
  destruct (findGit H (path_setting w) (host w)) as [[candidates [info|e]] h1];
    cbn [fst snd].
  2:{ eexists _, _, _, [], {| path := []; version := [] |}.
      split; [reflexivity|]. rewrite app_nil_r.
      split; [apply (extends_add_effects _ (set_host h1 w))|].
      rewrite prompts_looking, config_updates_looking.
      split; [done|]. split; [done|]. by left. }
  destruct (askpass_getEnv H h1) as [[env|e] h2]; cbn [fst snd].
  2:{ eexists _, _, _, [], info. split; [reflexivity|]. rewrite app_nil_r.
      split; [apply extends_looking_askpass|].
      rewrite prompts_app, config_updates_app, prompts_looking, config_updates_looking.
      split; [done|]. split; [done|]. by left. }
  set (wc := add_effects (wiring_effects H info (repositories_length H h2))
               (add_effects [PushDisposable DAskpass; CallGetEnv]
                  (set_host h2
                     (add_effects (looking H (path_setting w) candidates)
                        (set_host h1 w))))).
  destruct (checkGitVersion_delta H info wc) as (r & tail & w' & Hrun & Hext & Htail).
  rewrite Hrun. cbn [fst snd].
  exists (match r with
          | Normal _ => Normal {| model_git := {| gitPath := path info;
                                                  git_version := version info;
                                                  env := env |} |}
          | Throw e => Throw e
          end), w',
    ((looking H (path_setting w) candidates ++ [PushDisposable DAskpass; CallGetEnv])
     ++ wiring_effects H info (repositories_length H h2)), tail, info.
  split; [by destruct r|]. split.
  - eapply extends_trans; [|exact Hext].
    eapply extends_trans; [apply extends_looking_askpass | apply extends_add_effects].
  - rewrite !prompts_app, !config_updates_app, prompts_looking, config_updates_looking.
    split; [done|]. split; [done|]. exact Htail.
Qed.

(** The same for the [try] and [catch] of [activate]: the version check
    of [createModel], then, when [createModel] rejected for a missing
    git, two lines of log and the recovery. *)
Lemma activate_body_shape w :
  ∃ r w' d1 d2 d3 d4 info,
    activate_body H w = (r, w') ∧ extends w w' (d1 ++ d2 ++ d3 ++ d4)
    ∧ prompts d1 = [] ∧ config_updates d1 = []
    ∧ one_warning (legacy_prompt H info) "ignoreLegacyWarning" d2
    ∧ prompts d3 = [] ∧ config_updates d3 = []
    ∧ one_warning (missing_prompt H) "ignoreMissingGitWarning" d4.
Proof.
  destruct (createModel_shape w)
    as (r & w1 & d1 & d2 & info & Hrun & Hext & Hp & Hu & Hw).
  assert (extends w w1 (d1 ++ d2 ++ [] ++ [])) as Hext0 by by rewrite !app_nil_r.
  destruct r as [model|err].
  { exists (Normal (createGitExtension (Some model))), w1, d1, d2, [], [], info.
    split; [unfold activate_body, try_catch; by rewrite bind_run, Hrun|].
    split; [exact Hext0|]. do 3 (split; [done|]). do 2 (split; [done|]). by left. }
  destruct err as [| |m t].
  - rewrite (proj1 (activate_body_catch_nullish H w _ w1 Hrun) eq_refl).
    eexists _, w1, d1, d2, [], [], info. split; [reflexivity|].
    split; [exact Hext0|]. do 3 (split; [done|]). do 2 (split; [done|]). by left.
  - rewrite (proj2 (activate_body_catch_nullish H w _ w1 Hrun) eq_refl).
    eexists _, w1, d1, d2, [], [], info. split; [reflexivity|].
    split; [exact Hext0|]. do 3 (split; [done|]). do 2 (split; [done|]). by left.
  - rewrite (activate_body_catch H w m t w1 Hrun).
    destruct (test re_not_found (or_empty m)).
    + destruct (warnAboutMissingGit_delta H
                  (add_effects [ConsoleWarn (to_string m); AppendLine (to_string m)] w1))
        as (r3 & d4 & w3 & Hwarn & Hext3 & Hw3).
      rewrite Hwarn.
      exists (match r3 with
              | Normal _ => Normal (createGitExtension None)
              | Throw e => Throw e
              end), w3, d1, d2,
        [ConsoleWarn (to_string m); AppendLine (to_string m)], d4, info.
      split; [by destruct r3 as [[]|e]|]. split.
      * replace (d1 ++ d2 ++ [ConsoleWarn (to_string m); AppendLine (to_string m)] ++ d4)
          with ((d1 ++ d2) ++ [ConsoleWarn (to_string m); AppendLine (to_string m)] ++ d4)
          by by rewrite <- app_assoc.
        eapply extends_trans; [exact Hext|].
        eapply extends_trans; [apply extends_add_effects | exact Hext3].
      * do 3 (split; [done|]). do 2 (split; [done|]). exact Hw3.
    + eexists _, w1, d1, d2, [], [], info. split; [reflexivity|].
      split; [exact Hext0|]. do 3 (split; [done|]). do 2 (split; [done|]). by left.
Qed.

Lemma await_enabled_cons c changes enabled w :
  js_not enabled = true →
  await_enabled (c :: changes) enabled w
  = if affectsConfiguration (change_event c) "git"
       && strict_eq_true (change_settings c !! "enabled")
    then Some (set_settings (change_settings c) w)
    else await_enabled changes enabled w.
Proof.
  intros Hnot. unfold await_enabled. rewrite Hnot.
  unfold onDidChangeConfiguration, filterEvent, eventToPromise.
  cbn [map List.filter fst snd].
  destruct (affectsConfiguration (change_event c) "git"); [|reflexivity].
  cbn [List.filter fst snd settings set_settings andb].
  destruct (strict_eq_true (change_settings c !! "enabled")); reflexivity.
Qed.

(** Waiting for the extension to be enabled changes nothing but,
    possibly, the settings. *)
Lemma await_enabled_frame changes enabled w w' :
  await_enabled changes enabled w = Some w' → extends w w' [].
Proof.
  destruct (js_not enabled) eqn:Hnot.
  - induction changes as [|c changes IH].
    + unfold await_enabled. rewrite Hnot. discriminate.
    + rewrite await_enabled_cons by done. destruct (_ && _); [|exact IH].
      intros [= <-]. unfold extends. simpl. by rewrite app_nil_r.
  - unfold await_enabled. rewrite Hnot. intros [= <-]. apply extends_refl.
Qed.

Lemma activate_prelude_extends w0 :
  ∃ wp, activate_prelude H w0 = (Normal (settings w0 !! "enabled"), wp)
        ∧ effects wp = effects w0 ++
            [PushDisposable DSubscription; CreateOutputChannel "Git";
             RegisterCommand "git.showOutput"; PushDisposable DOutputChannel]
        ∧ deactivateTasks wp = deactivateTasks w0 ++ [telemetryReporter_dispose H].
Proof.
  eexists. split; [reflexivity|]. split; [|reflexivity].
  simpl. by rewrite <- !app_assoc.
Qed.

(** Where an activation ends: suspended after its first lines, or settled
    by its [try] entered in a world with the same trace and registry. *)
Lemma activate_cases changes w0 :
  ∃ wp,
    effects wp = effects w0 ++
      [PushDisposable DSubscription; CreateOutputChannel "Git";
       RegisterCommand "git.showOutput"; PushDisposable DOutputChannel]
    ∧ deactivateTasks wp = deactivateTasks w0 ++ [telemetryReporter_dispose H]
    ∧ (activate H changes w0 = Pending wp
       ∨ ∃ wt, enters_try H changes w0 wt ∧ extends wp wt []
               ∧ activate H changes w0 = settle (activate_body H wt)).
Proof.
  destruct (activate_prelude_extends w0) as (wp & Hprelude & Heff & Htasks).
  exists wp. split; [done|]. split; [done|].
  unfold activate. rewrite Hprelude.
  destruct (await_enabled changes (settings w0 !! "enabled") wp) as [wt|] eqn:Hgate.
  - right. exists wt. split; [by exists (settings w0 !! "enabled"), wp|].
    split; [by eapply await_enabled_frame | reflexivity].
  - by left.
Qed.

(** X6. An activation presents each of its two warnings at most once,
    whatever the configuration changes, the outcome of the search for
    git and the answers: at most one legacy warning, of the version
    check, and after it at most one missing-git warning, of the
    recovery; it presents no other prompt, and a suspended activation
    presents none. *)
Theorem activate_prompts_each_warning_at_most_once changes w0 :
  ∃ legacy missing,
    prompts (effects (world_of (activate H changes w0)))
    = prompts (effects w0) ++ legacy ++ missing
    ∧ (legacy = [] ∨ ∃ info, legacy = [legacy_prompt H info])
    ∧ (missing = [] ∨ missing = [missing_prompt H])
    ∧ (outcome_of (activate H changes w0) = None → legacy = [] ∧ missing = []).
Proof.
  destruct (activate_cases changes w0)
    as (wp & Heff & _ & [-> | (wt & _ & (Hgate & _) & ->)]).
  - exists [], []. simpl. rewrite Heff, prompts_app. simpl.
    split; [done|]. split; [by left|]. split; [by left|done].
  - destruct (activate_body_shape wt)
      as (r & w' & d1 & d2 & d3 & d4 & info & -> & (Hext & _)
          & Hp1 & _ & Hw2 & Hp3 & _ & Hw4).
    exists (prompts d2), (prompts d4). simpl.
    rewrite Hext, Hgate, Heff, app_nil_r, !prompts_app, Hp1, Hp3. simpl.
    rewrite app_nil_r. split; [done|]. split; [|split; [|discriminate]].
    + destruct (one_warning_prompts _ _ _ Hw2) as [->| ->]; [by left|right; eauto].
    + destruct (one_warning_prompts _ _ _ Hw4) as [->| ->]; auto.
Qed.

(** X7. The only settings an activation writes are the two dismissal
    flags, each at most once and to [true] at global scope, first
    [ignoreLegacyWarning] and then [ignoreMissingGitWarning]: it never
    writes [false] and never any other key. *)
Theorem activate_writes_only_dismissal_flags changes w0 :
  ∃ legacy missing,
    config_updates (effects (world_of (activate H changes w0)))
    = config_updates (effects w0) ++ legacy ++ missing
    ∧ (legacy = [] ∨ legacy = [("ignoreLegacyWarning", true, true)])
    ∧ (missing = [] ∨ missing = [("ignoreMissingGitWarning", true, true)]).
Proof.
  destruct (activate_cases changes w0)
    as (wp & Heff & _ & [-> | (wt & _ & (Hgate & _) & ->)]).
  - exists [], []. simpl. rewrite Heff, config_updates_app. simpl.
    split; [done|]. split; by left.
  - destruct (activate_body_shape wt)
      as (r & w' & d1 & d2 & d3 & d4 & info & -> & (Hext & _)
          & _ & Hu1 & Hw2 & _ & Hu3 & Hw4).
    exists (config_updates d2), (config_updates d4). simpl.
    rewrite Hext, Hgate, Heff, app_nil_r, !config_updates_app, Hu1, Hu3. simpl.
    rewrite app_nil_r. split; [done|]. split.
    + by apply (one_warning_updates _ _ _ Hw2).
    + by apply (one_warning_updates _ _ _ Hw4).
Qed.

(** X8. An activation rejects only after [createModel] rejected, and in
    one of three ways: with the failure of [createModel] itself, when
    its message does not contain [Git installation not found]; with the
    [TypeError] of reading the message, when what [createModel] threw is
    [null] or [undefined]; or with the rejection of the recovery that
    follows a failure whose message contains the text. *)
Theorem activate_rejects_only_after_createModel changes w0 e w :
  activate H changes w0 = Settled (Throw e) w →
  ∃ wt err w1,
    enters_try H changes w0 wt
    ∧ createModel H wt = (Throw err, w1)
    ∧ match err with
      | ThrownNull => e = type_error (lit "null") ∧ w = w1
      | ThrownUndefined => e = type_error (lit "undefined") ∧ w = w1
      | Thrown m t =>
          (¬ contains (or_empty m) git_not_found ∧ e = err ∧ w = w1)
          ∨ (contains (or_empty m) git_not_found
             ∧ warnAboutMissingGit H
                 (add_effects [ConsoleWarn (or_empty m); AppendLine (or_empty m)] w1)
               = (Throw e, w))
      end.
Proof.
  destruct (activate_cases changes w0)
    as (wp & _ & _ & [-> | (wt & Henters & _ & ->)]); [discriminate|].
  destruct (createModel H wt) as [[model|err] w1] eqn:Hmodel.
  { unfold activate_body, try_catch. rewrite bind_run, Hmodel. discriminate. }
  intros Hsettled. exists wt, err, w1. split; [done|]. split; [done|].
  destruct err as [| |m t].
  - rewrite (proj1 (activate_body_catch_nullish H wt _ w1 Hmodel) eq_refl) in Hsettled.
    by injection Hsettled as <- <-.
  - rewrite (proj2 (activate_body_catch_nullish H wt _ w1 Hmodel) eq_refl) in Hsettled.
    by injection Hsettled as <- <-.
  - rewrite (activate_body_catch H wt m t w1 Hmodel) in Hsettled.
    destruct (test re_not_found (or_empty m)) eqn:Htest.
    + apply JsFacts.test_not_found in Htest. right. split; [done|].
      rewrite (message_of_not_found m Htest) in Hsettled.
      destruct (warnAboutMissingGit H _) as [[[]|e'] w2]; [discriminate|].
      by injection Hsettled as <- <-.
    + left. injection Hsettled as <- <-. split; [|done].
      intros Hc. apply JsFacts.test_not_found in Hc. congruence.
Qed.

(** X9. Every activation registers the telemetry teardown, once and
    before the enablement gate: whether it is suspended, resolves or
    rejects, the registry is the one it found plus
    [telemetryReporter.dispose()]. From an empty registry, a
    [deactivate] that follows calls that task, and only it, and ends as
    it ends. *)
Theorem activate_registers_telemetry_teardown changes w0 :
  let w := world_of (activate H changes w0) in
  deactivateTasks w = deactivateTasks w0 ++ [telemetryReporter_dispose H]
  ∧ (deactivateTasks w0 = [] →
     let out := telemetryReporter_dispose H (host w) in
     (deactivate w).2 = add_effects [CallTask 0 out.1] (set_host out.2 w)
     ∧ ((deactivate w).1 = Normal tt ↔ ∃ u, out.1 = Normal u)
     ∧ ∀ e, (deactivate w).1 = Throw e ↔ out.1 = Throw e).
Proof.
  cbn zeta.
  assert (deactivateTasks (world_of (activate H changes w0))
          = deactivateTasks w0 ++ [telemetryReporter_dispose H]) as Htasks.
  { destruct (activate_cases changes w0)
      as (wp & _ & Hreg & [-> | (wt & _ & (_ & Hgate & _) & ->)]); [done|].
    destruct (activate_body_shape wt)
      as (r & w' & d1 & d2 & d3 & d4 & info & -> & (_ & Hbody & _) & _).
    simpl. congruence. }
  split; [exact Htasks|]. intros Hempty.
  unfold deactivate. rewrite Htasks, Hempty. cbn [app run_tasks].
  rewrite bind_run. unfold call_task.
  destruct (telemetryReporter_dispose H (host (world_of (activate H changes w0))))
    as [[[]|e] h]; cbn [fst snd].
  - split; [reflexivity|]. split; [split; eauto|]. intros e; split; discriminate.
  - split; [reflexivity|]. split.
    + split; [discriminate|]. intros [u Hu]. discriminate.
    + intros e'. split; congruence.
Qed.

Lemma activate_enters_try changes w0 wt :
  enters_try H changes w0 wt →
  activate H changes w0 = settle (activate_body H wt).
Proof.
  intros (enabled & wp & Hprelude & Hgate). unfold activate.
  by rewrite Hprelude, Hgate.
Qed.

(** X14. The extension an activation resolves with holds a model exactly
    when git was found, [askpass.getEnv] resolved and the version check
    resolved, and the model is then on that git (its path, its version,
    the askpass environment). It holds no model only after a failure
    of [createModel] that reads as a missing git. *)
Theorem activate_resolves_with_the_git_found changes w0 wt ext w :
  enters_try H changes w0 wt →
  activate H changes w0 = Settled (Normal ext) w →
  let found := findGit H (path_setting wt) (host wt) in
  (∃ info env,
     found.1.2 = Normal info
     ∧ (askpass_getEnv H found.2).1 = Normal env
     ∧ createModel H wt
       = (Normal {| model_git := {| gitPath := path info; git_version := version info;
                                    env := env |} |}, w)
     ∧ extension_model ext
       = Some {| model_git := {| gitPath := path info; git_version := version info;
                                 env := env |} |})
  ∨ (∃ e, (createModel H wt).1 = Throw e ∧ missing_git e
          ∧ extension_model ext = None).
Proof.
  intros Henters. rewrite (activate_enters_try changes w0 wt Henters).
  cbn zeta. destruct (createModel H wt) as [[model|err] w1] eqn:Hmodel.
  - unfold activate_body, try_catch. rewrite bind_run, Hmodel.
    unfold settle. cbn [fst snd]. intros [= <- <-]. left.
    pose proof (createModel_run H wt) as Hrun. cbn zeta in Hrun.
    rewrite Hmodel in Hrun.
    destruct (findGit H (path_setting wt) (host wt)) as [[candidates [info|e]] h1];
      cbn [fst snd] in *; [|discriminate].
    destruct (askpass_getEnv H h1) as [[env|e] h2]; cbn [fst snd] in *;
      [|discriminate].
    destruct (checkGitVersion H info _) as [[[]|e] w']; cbn [fst snd] in *;
      [|discriminate].
    injection Hrun as -> ->. by exists info, env.
  - intros Hsettled. right. exists err. split; [done|].
    destruct err as [| |m t].
    + rewrite (proj1 (activate_body_catch_nullish H wt _ w1 Hmodel) eq_refl)
        in Hsettled.
      discriminate Hsettled.
    + rewrite (proj2 (activate_body_catch_nullish H wt _ w1 Hmodel) eq_refl)
        in Hsettled.
      discriminate Hsettled.
    + rewrite (activate_body_catch H wt m t w1 Hmodel) in Hsettled.
      destruct (test re_not_found (or_empty m)) eqn:Htest; [|discriminate Hsettled].
      apply JsFacts.test_not_found in Htest.
      destruct (warnAboutMissingGit H _) as [[[]|e'] w2]; [|discriminate Hsettled].
      unfold settle in Hsettled. cbn [fst snd] in Hsettled.
      injection Hsettled as <- _.
      split; [by exists m, t|reflexivity].
Qed.

(** X15. When what [createModel] throws is [null] or [undefined], the
    [catch] of [activate] fails on reading its message: activation
    rejects with the [TypeError] of that read, not with what was
    thrown, and nothing is logged, no recovery runs. *)
Theorem activate_fails_on_a_thrown_null changes w0 wt w1 :
  enters_try H changes w0 wt →
  (createModel H wt = (Throw ThrownNull, w1) →
   activate H changes w0 = Settled (Throw (type_error (lit "null"))) w1)
  ∧ (createModel H wt = (Throw ThrownUndefined, w1) →
     activate H changes w0 = Settled (Throw (type_error (lit "undefined"))) w1).
Proof.
  intros Henters. rewrite (activate_enters_try changes w0 wt Henters).
  split; intros Hmodel.
  - by rewrite (proj1 (activate_body_catch_nullish H wt _ w1 Hmodel) eq_refl).
  - by rewrite (proj2 (activate_body_catch_nullish H wt _ w1 Hmodel) eq_refl).
Qed.

End ActivationOutcome.


(* ===================================================================== *)
(** ** What the installers tell the user                                  *)
(* ===================================================================== *)

Section Notifications.
Context {P : Type} (H : Host P).
Implicit Types (w : World P) (git : Git).

Lemma notes_app es1 es2 : notes (es1 ++ es2) = notes es1 ++ notes es2.
Proof. apply omap_app. Qed.

Lemma output_shows_app es1 es2 :
  output_shows (es1 ++ es2) = output_shows es1 ++ output_shows es2.
Proof. apply omap_app. Qed.

Lemma console_errors_app es1 es2 :
  console_errors (es1 ++ es2) = console_errors es1 ++ console_errors es2.
Proof. apply omap_app. Qed.

Lemma setGitGlobalConfig_logs_failure git key value :
  logs_failure (setGitGlobalConfig H git key value).
Proof.
  intros w. rewrite setGitGlobalConfig_run. cbn zeta.
  destruct (git_exec H git (lit ".") (config_args (key, value)) (host w)) as [r h].
  cbn [fst snd]. eexists _, _, _. split; [reflexivity|]. split; [reflexivity|].
  destruct r as [res|e]; simpl; [|done].
  destruct (exitCode res =? 0)%Z; done.
Qed.

Lemma and_await_logs_failure (a b : @Async P bool) :
  logs_failure a → logs_failure b → logs_failure (and_await a b).
Proof.
  intros Ha Hb w. rewrite and_await_run.
  destruct (Ha w) as (ok1 & d1 & w1 & -> & He1 & Hn1 & Hs1 & Hc1). destruct ok1.
  - destruct (Hb w1) as (ok2 & d2 & w2 & -> & He2 & Hn2 & Hs2 & Hc2).
    exists ok2, (d1 ++ d2), w2. split; [done|].
    split; [by rewrite He2, He1, app_assoc|].
    rewrite notes_app, output_shows_app, console_errors_app, Hn1, Hn2, Hs1, Hs2.
    rewrite length_app, Hc1. done.
  - by exists false, d1, w1.
Qed.

Lemma notify_reports (m : @Async P bool) success failure :
  logs_failure m →
  reports (ok ← m;
           if (ok : bool) then emit (InformationMessage success);; mret true
           else emit (ErrorMessage failure);; emit ShowOutput;; mret false)
          success failure.
Proof.
  intros Hm w. rewrite bind_run.
  destruct (Hm w) as (ok & d & w1 & -> & He & Hn & Hs & Hc). destruct ok.
  - eexists true, (d ++ [InformationMessage success]), _.
    split; [reflexivity|]. split; [simpl; by rewrite He, app_assoc|].
    rewrite notes_app, output_shows_app, console_errors_app, Hn, Hs, length_app, Hc.
    done.
  - eexists false, (d ++ [ErrorMessage failure; ShowOutput]), _.
    split; [reflexivity|]. split; [simpl; by rewrite He, <- !app_assoc|].
    rewrite notes_app, output_shows_app, console_errors_app, Hn, Hs, length_app, Hc.
    done.
Qed.

Lemma with_exe_reports vscodeExe exe (f : jsstring → @Async P bool) success failure :
  resolved_exe H vscodeExe = Normal exe →
  reports (f exe) success failure →
  reports (exe ← or_findVsCodeExeInPath H vscodeExe; f exe) success failure.
Proof. intros Hexe Hf w. rewrite with_exe_run, Hexe. apply Hf. Qed.

Lemma setVsCodeAsGitEditor_reports git vscodeExe exe :
  resolved_exe H vscodeExe = Normal exe →
  reports (setVsCodeAsGitEditor H git vscodeExe)
          (editor_messages H).1 (editor_messages H).2.
Proof.
  intros Hexe. unfold setVsCodeAsGitEditor.
  apply (with_exe_reports vscodeExe exe (λ exe, _ ≫= _) _ _ Hexe).
  apply notify_reports, setGitGlobalConfig_logs_failure.
Qed.

Lemma setVsCodeAsGitDiffTool_reports git vscodeExe exe :
  resolved_exe H vscodeExe = Normal exe →
  reports (setVsCodeAsGitDiffTool H git vscodeExe)
          (diff_messages H).1 (diff_messages H).2.
Proof.
  intros Hexe. unfold setVsCodeAsGitDiffTool.
  apply (with_exe_reports vscodeExe exe (λ exe, _ ≫= _) _ _ Hexe).
  apply notify_reports.
  apply and_await_logs_failure; apply setGitGlobalConfig_logs_failure.
Qed.

Lemma setVsCodeAsGitMergeTool_reports git vscodeExe exe :
  resolved_exe H vscodeExe = Normal exe →
  reports (setVsCodeAsGitMergeTool H git vscodeExe)
          (merge_messages H).1 (merge_messages H).2.
Proof.
  intros Hexe. unfold setVsCodeAsGitMergeTool.
  apply (with_exe_reports vscodeExe exe (λ exe, _ ≫= _) _ _ Hexe).
  apply notify_reports.
  apply and_await_logs_failure; apply setGitGlobalConfig_logs_failure.
Qed.

(** X10. Each of the three installers, once it has its executable, tells
    the user its outcome exactly once: on success one information
    message and nothing else; on failure one error message, the output
    channel shown once, and one line on [console.error] for the write
    that failed. When the lookup of the executable rejects, nothing is
    reported: the installer rejects and the world is as before. *)
Theorem installers_report_their_outcome git vscodeExe :
  match resolved_exe H vscodeExe with
  | Normal _ =>
      reports (setVsCodeAsGitEditor H git vscodeExe)
              (editor_messages H).1 (editor_messages H).2
      ∧ reports (setVsCodeAsGitDiffTool H git vscodeExe)
                (diff_messages H).1 (diff_messages H).2
      ∧ reports (setVsCodeAsGitMergeTool H git vscodeExe)
                (merge_messages H).1 (merge_messages H).2
  | Throw e =>
      rejects_untouched (setVsCodeAsGitEditor H git vscodeExe) e
      ∧ rejects_untouched (setVsCodeAsGitDiffTool H git vscodeExe) e
      ∧ rejects_untouched (setVsCodeAsGitMergeTool H git vscodeExe) e
  end.
Proof.
  destruct (resolved_exe H vscodeExe) as [exe|e] eqn:Hexe.
  - split; [|split].
    + by eapply setVsCodeAsGitEditor_reports.
    + by eapply setVsCodeAsGitDiffTool_reports.
    + by eapply setVsCodeAsGitMergeTool_reports.
  - by apply installers_reject.
Qed.

Lemma length_zero_nil {A} (l : list A) : length l = 0%nat → l = [].
Proof. by destruct l. Qed.

(** X11. The combined installer, once the application is looked up,
    reports tool by tool and stops at the first failure: on success the
    three success messages, in the order editor, diff tool, merge tool;
    on failure the success messages of the tools set before, then one
    error message, of the tool that failed, with the output channel
    shown once and one line on [console.error]; nothing is reported for
    the tools after it. *)
Theorem setVsCodeAsGitTools_reports_each_tool git app w :
  electron_remote_app H = Normal app →
  ∃ ok delta w',
    setVsCodeAsGitTools H git w = (Normal ok, w')
    ∧ effects w' = effects w ++ delta
    ∧ ((ok = true
        ∧ notes delta = [(true, (editor_messages H).1); (true, (diff_messages H).1);
                         (true, (merge_messages H).1)]
        ∧ output_shows delta = [] ∧ console_errors delta = [])
       ∨ (ok = false
          ∧ output_shows delta = [tt] ∧ length (console_errors delta) = 1%nat
          ∧ (notes delta = [(false, (editor_messages H).2)]
             ∨ notes delta = [(true, (editor_messages H).1);
                              (false, (diff_messages H).2)]
             ∨ notes delta = [(true, (editor_messages H).1);
                              (true, (diff_messages H).1);
                              (false, (merge_messages H).2)]))).
Proof.
  intros Happ. pose proof (resolved_exe_app H app Happ) as Hexe.
  rewrite setVsCodeAsGitTools_run, Happ, and_await_run.
  destruct (setVsCodeAsGitEditor_reports git (Some app) app Hexe w)
    as (ok1 & d1 & w1 & -> & He1 & Hn1 & Hs1 & Hc1).
  destruct ok1.
  2:{ exists false, d1, w1. split; [done|]. split; [done|]. right.
      repeat split; try done. by left. }
  rewrite and_await_run.
  destruct (setVsCodeAsGitDiffTool_reports git (Some app) app Hexe w1)
    as (ok2 & d2 & w2 & -> & He2 & Hn2 & Hs2 & Hc2).
  destruct ok2.
  2:{ exists false, (d1 ++ d2), w2. split; [done|].
      split; [by rewrite He2, He1, app_assoc|]. right.
      rewrite notes_app, output_shows_app, console_errors_app, length_app.
      rewrite Hn1, Hn2, Hs1, Hs2, Hc1, Hc2. repeat split; try done.
      right. by left. }
  destruct (setVsCodeAsGitMergeTool_reports git (Some app) app Hexe w2)
    as (ok3 & d3 & w3 & -> & He3 & Hn3 & Hs3 & Hc3).
  exists ok3, (d1 ++ d2 ++ d3), w3. split; [done|].
  split; [by rewrite He3, He2, He1, <- !app_assoc|].
  rewrite !notes_app, !output_shows_app, !console_errors_app, !length_app.
  rewrite Hn1, Hn2, Hn3, Hs1, Hs2, Hs3.
  destruct ok3.
  - left. apply length_zero_nil in Hc1, Hc2, Hc3. rewrite Hc1, Hc2, Hc3. done.
  - right. rewrite Hc1, Hc2, Hc3. repeat split; try done. right. by right.
Qed.

End Notifications.

(* ===================================================================== *)
(** ** What the output log sink forwards                                  *)
(* ===================================================================== *)

Section Forwarding.
Context {P : Type}.
Implicit Types (w : World P) (s str : jsstring).

Lemma join_push_front c (ls : list jsstring) :
  ls ≠ [] → join [10] (push_front c ls) = c :: join [10] ls.
Proof. destruct ls as [|l [|l' ls]]; [congruence|done|done]. Qed.

Lemma join_cons_nil (ls : list jsstring) :
  ls ≠ [] → join [10] ([] :: ls) = 10 :: join [10] ls.
Proof. destruct ls as [|l ls]; [congruence|done]. Qed.

(** Splitting a text into its lines and joining them with newlines turns
    the carriage return and newline pairs into newlines, and changes
    nothing else. *)
Lemma join_spec_lines s : join [10] (spec_lines s) = crlf_to_lf s.
Proof.
  induction s as [s IH] using (induction_ltof1 _ (@length N)). unfold ltof in IH.
  destruct s as [|c t]; [reflexivity|].
  cbn [spec_lines crlf_to_lf].
  destruct (N.eqb_spec c 10) as [->|Hc].
  - rewrite join_cons_nil by apply JsFacts.spec_lines_nonempty.
    rewrite IH by (simpl; lia).
    destruct t as [|d u]; reflexivity.
  - destruct t as [|d u]; [reflexivity|].
    destruct ((c =? 13) && (d =? 10)).
    + rewrite join_cons_nil by apply JsFacts.spec_lines_nonempty.
      by rewrite IH by (simpl; lia).
    + rewrite join_push_front by apply JsFacts.spec_lines_nonempty.
      by rewrite IH by (simpl; lia).
Qed.

Lemma crlf_to_lf_id s :
  (∀ pre post, s ≠ pre ++ [13; 10] ++ post) → crlf_to_lf s = s.
Proof.
  induction s as [|c t IH]; intros Hfree; [reflexivity|].
  cbn [crlf_to_lf]. destruct t as [|d u]; [reflexivity|].
  destruct (N.eqb_spec c 13) as [->|Hc]; simpl.
  - destruct (N.eqb_spec d 10) as [->|Hd].
    + exfalso. by apply (Hfree [] u).
    + f_equal. apply IH. intros pre post Heq. apply (Hfree (13 :: pre) post).
      by rewrite Heq.
  - f_equal. apply IH. intros pre post Heq. apply (Hfree (c :: pre) post).
    by rewrite Heq.
Qed.

(** X12. A text whose last line is not all whitespace is forwarded whole:
    the entry is the text with its carriage return and newline pairs
    turned into newlines, and the text itself when it has no such pair. *)
Theorem onOutput_forwards_text_unchanged str w :
  (∀ l, last (spec_lines str) = Some l → ¬ blank l) →
  onOutput str w = Some (Normal tt, add_effects [AppendLine (crlf_to_lf str)] w)
  ∧ ((∀ pre post, str ≠ pre ++ [13; 10] ++ post) → crlf_to_lf str = str).
Proof.
  intros Hlast. split; [|apply crlf_to_lf_id].
  unfold onOutput. rewrite JsFacts.split_newline.
  destruct (pop_blank_spec (spec_lines str) (S (length (spec_lines str))))
    as (kept & dropped & Hsplit & Hd & _ & ->); [lia|].
  assert (dropped = []) as ->.
  { destruct dropped as [|x dropped _] using rev_ind; [reflexivity|]. exfalso.
    apply (Hlast x).
    - by rewrite Hsplit, app_assoc, last_snoc.
    - apply Forall_app in Hd as [_ Hx]. by inversion Hx. }
  rewrite app_nil_r in Hsplit. by rewrite <- Hsplit, join_spec_lines.
Qed.

(** X13. A text all of whose lines are all whitespace (the empty text
    included) still gives one entry, the empty one. *)
Theorem onOutput_blank_text_gives_empty_entry str w :
  Forall blank (spec_lines str) →
  onOutput str w = Some (Normal tt, add_effects [AppendLine []] w).
Proof.
  intros Hblank. unfold onOutput. rewrite JsFacts.split_newline.
  destruct (pop_blank_spec (spec_lines str) (S (length (spec_lines str))))
    as (kept & dropped & Hsplit & _ & Hk & ->); [lia|].
  assert (kept = []) as ->; [|reflexivity].
  destruct kept as [|x kept _] using rev_ind; [reflexivity|]. exfalso.
  apply (Hk x); [by rewrite last_snoc|].
  rewrite Hsplit in Hblank. apply Forall_app in Hblank as [Hblank _].
  apply Forall_app in Hblank as [_ Hx]. by inversion Hx.
Qed.

End Forwarding.
(* ===================================================================== *)
(** ** The further properties at work on the small outside world          *)
(* ===================================================================== *)

Section MoreWitnesses.
Import Fixture Scenarios.

Lemma legacy_warning_dismissed_for_good_witness :
  (checkGitVersion (fixture_host []) git_1_9 world_legacy).1 = Normal tt
  ∧ settings (checkGitVersion (fixture_host []) git_1_9 world_legacy).2
    = <["ignoreLegacyWarning" := true]> (settings world_legacy)
  ∧ effects (checkGitVersion (fixture_host []) git_1_9 world_legacy).2
    = effects world_legacy ++
      [WarningMessage (legacy_prompt (fixture_host []) git_1_9).1
         (legacy_prompt (fixture_host []) git_1_9).2;
       ConfigUpdate "ignoreLegacyWarning" true true]
  ∧ ((<["ignoreLegacyWarning" := true]> (settings world_legacy) : gmap string bool)
       !! "ignoreLegacyWarning" = Some true →
     ∀ info' w2,
       settings w2 !! "ignoreLegacyWarning"
       = settings (checkGitVersion (fixture_host []) git_1_9 world_legacy).2
           !! "ignoreLegacyWarning" →
       checkGitVersion (fixture_host []) info' w2 = (Normal tt, w2)).
Proof.
  apply (legacy_warning_dismissed_for_good (fixture_host []) git_1_9 world_legacy
           (<["ignoreLegacyWarning" := true]> (settings world_legacy))).
  - exists (lit ".9.5"). right. reflexivity.
  - intros Hflag. vm_compute in Hflag. discriminate Hflag.
  - reflexivity.
  - intros Heq. vm_compute in Heq. discriminate Heq.
  - reflexivity.
Defined.

Lemma legacy_warning_asks_again_witness :
  (checkGitVersion (fixture_host []) git_1_9 world_legacy_closed).1 = Normal tt
  ∧ settings (checkGitVersion (fixture_host []) git_1_9 world_legacy_closed).2
    = settings world_legacy_closed
  ∧ (∃ delta,
       effects (checkGitVersion (fixture_host []) git_1_9 world_legacy_closed).2
       = effects world_legacy_closed ++ delta
       ∧ config_updates delta = []
       ∧ prompts delta = [legacy_prompt (fixture_host []) git_1_9])
  ∧ prompts (effects (checkGitVersion (fixture_host []) git_1_9
                        (checkGitVersion (fixture_host []) git_1_9
                           world_legacy_closed).2).2)
    = prompts (effects (checkGitVersion (fixture_host []) git_1_9
                          world_legacy_closed).2)
      ++ [legacy_prompt (fixture_host []) git_1_9].
Proof.
  apply (legacy_warning_asks_again (fixture_host []) git_1_9 world_legacy_closed None).
  - exists (lit ".9.5"). right. reflexivity.
  - intros Hflag. vm_compute in Hflag. discriminate Hflag.
  - reflexivity.
  - right. discriminate.
Defined.

Lemma warnAboutMissingGit_prompts_for_a_repository_witness :
  prompts (effects (warnAboutMissingGit (fixture_host []) world_repository).2)
  = prompts (effects world_repository) ++ [missing_prompt (fixture_host [])]
  ∧ ((warnAboutMissingGit (fixture_host []) world_repository).1 = Normal tt
     ∨ ∃ e, (warnAboutMissingGit (fixture_host []) world_repository).1 = Throw e
            ∧ (answer (fixture_host []) (missing_prompt (fixture_host []))
                 (host world_repository) = Throw e
               ∨ ∃ s p, (config_write (fixture_host []) "ignoreMissingGitWarning"
                           true true s p).1 = Throw e)).
Proof.
  apply (warnAboutMissingGit_prompts_for_a_repository (fixture_host [])
           [folder (lit "file") (lit "/home/user/project")] world_repository).
  - intros Hflag. vm_compute in Hflag. discriminate Hflag.
  - reflexivity.
  - exists (folder (lit "file") (lit "/home/user/project")).
    split; [by apply list_elem_of_singleton|].
    split; [reflexivity|]. exists {| isDirectory := true |}. split; reflexivity.
Defined.

Lemma missing_git_warning_dismissed_for_good_witness :
  (warnAboutMissingGit (fixture_host []) world_repository).1 = Normal tt
  ∧ settings (warnAboutMissingGit (fixture_host []) world_repository).2
    = <["ignoreMissingGitWarning" := true]> (settings world_repository)
  ∧ effects (warnAboutMissingGit (fixture_host []) world_repository).2
    = effects world_repository ++
      [WarningMessage (missing_prompt (fixture_host [])).1
         (missing_prompt (fixture_host [])).2;
       ConfigUpdate "ignoreMissingGitWarning" true true]
  ∧ ((<["ignoreMissingGitWarning" := true]> (settings world_repository)
        : gmap string bool) !! "ignoreMissingGitWarning" = Some true →
     ∀ w2,
       settings w2 !! "ignoreMissingGitWarning"
       = settings (warnAboutMissingGit (fixture_host []) world_repository).2
           !! "ignoreMissingGitWarning" →
       warnAboutMissingGit (fixture_host []) w2 = (Normal tt, w2)).
Proof.
  apply (missing_git_warning_dismissed_for_good (fixture_host [])
           [folder (lit "file") (lit "/home/user/project")] world_repository
           (<["ignoreMissingGitWarning" := true]> (settings world_repository))).
  - intros Hflag. vm_compute in Hflag. discriminate Hflag.
  - reflexivity.
  - exists (folder (lit "file") (lit "/home/user/project")).
    split; [by apply list_elem_of_singleton|].
    split; [reflexivity|]. exists {| isDirectory := true |}. split; reflexivity.
  - reflexivity.
  - intros Heq. vm_compute in Heq. discriminate Heq.
  - reflexivity.
Defined.

Lemma activate_rejects_only_after_createModel_witness :
  ∃ wt err w1,
    enters_try (fixture_host []) [] world_broken_git wt
    ∧ createModel (fixture_host []) wt = (Throw err, w1)
    ∧ match err with
      | ThrownNull =>
          enoent = type_error (lit "null")
          ∧ world_of (activate (fixture_host []) [] world_broken_git) = w1
      | ThrownUndefined =>
          enoent = type_error (lit "undefined")
          ∧ world_of (activate (fixture_host []) [] world_broken_git) = w1
      | Thrown m t =>
          (¬ contains (or_empty m) git_not_found ∧ enoent = err
           ∧ world_of (activate (fixture_host []) [] world_broken_git) = w1)
          ∨ (contains (or_empty m) git_not_found
             ∧ warnAboutMissingGit (fixture_host [])
                 (add_effects [ConsoleWarn (or_empty m); AppendLine (or_empty m)] w1)
               = (Throw enoent,
                  world_of (activate (fixture_host []) [] world_broken_git)))
      end.
Proof.
  apply (activate_rejects_only_after_createModel (fixture_host []) [] world_broken_git
           enoent (world_of (activate (fixture_host []) [] world_broken_git))).
  vm_compute. reflexivity.
Defined.

Lemma setVsCodeAsGitTools_reports_each_tool_witness :
  ∃ ok delta w',
    setVsCodeAsGitTools (fixture_host []) the_git world_modern = (Normal ok, w')
    ∧ effects w' = effects world_modern ++ delta
    ∧ ((ok = true
        ∧ notes delta = [(true, (editor_messages (fixture_host [])).1);
                         (true, (diff_messages (fixture_host [])).1);
                         (true, (merge_messages (fixture_host [])).1)]
        ∧ output_shows delta = [] ∧ console_errors delta = [])
       ∨ (ok = false
          ∧ output_shows delta = [tt] ∧ length (console_errors delta) = 1%nat
          ∧ (notes delta = [(false, (editor_messages (fixture_host [])).2)]
             ∨ notes delta = [(true, (editor_messages (fixture_host [])).1);
                              (false, (diff_messages (fixture_host [])).2)]
             ∨ notes delta = [(true, (editor_messages (fixture_host [])).1);
                              (true, (diff_messages (fixture_host [])).1);
                              (false, (merge_messages (fixture_host [])).2)]))).
Proof.
  apply (setVsCodeAsGitTools_reports_each_tool (fixture_host []) the_git
           (lit "/usr/share/code/code") world_modern).
  reflexivity.
Defined.

Lemma onOutput_forwards_text_unchanged_witness :
  onOutput [97; 13; 10; 98] world_modern
  = Some (Normal tt, add_effects [AppendLine (crlf_to_lf [97; 13; 10; 98])] world_modern)
  ∧ ((∀ pre post, [97; 13; 10; 98] ≠ pre ++ [13; 10] ++ post) →
     crlf_to_lf [97; 13; 10; 98] = [97; 13; 10; 98]).
Proof.
  apply (onOutput_forwards_text_unchanged [97; 13; 10; 98] world_modern).
  intros l Hl Hb. vm_compute in Hl. injection Hl as <-.
  inversion Hb as [|c rest Hc Hrest]. vm_compute in Hc. discriminate Hc.
Defined.

Lemma onOutput_blank_text_gives_empty_entry_witness :
  onOutput [32; 10; 9] world_modern
  = Some (Normal tt, add_effects [AppendLine []] world_modern).
Proof.
  apply (onOutput_blank_text_gives_empty_entry [32; 10; 9] world_modern).
  change (Forall blank [[32]; [9]]).
  constructor; [constructor; [reflexivity|constructor]|].
  constructor; [constructor; [reflexivity|constructor]|].
  constructor.
Defined.

Lemma activate_resolves_with_the_git_found_witness :
  let wt := set_settings (change_settings now_enabled)
              (activate_prelude (fixture_host []) world_disabled).2 in
  let model := {| model_git := {| gitPath := path git_2_30;
                                  git_version := version git_2_30;
                                  env := [(lit "GIT_ASKPASS", lit "askpass.sh")] |} |} in
  let w := world_of (activate (fixture_host []) [now_enabled] world_disabled) in
  (∃ info env,
     (findGit (fixture_host []) (path_setting wt) (host wt)).1.2 = Normal info
     ∧ (askpass_getEnv (fixture_host [])
          (findGit (fixture_host []) (path_setting wt) (host wt)).2).1 = Normal env
     ∧ createModel (fixture_host []) wt
       = (Normal {| model_git := {| gitPath := path info; git_version := version info;
                                    env := env |} |}, w)
     ∧ extension_model (createGitExtension (Some model))
       = Some {| model_git := {| gitPath := path info; git_version := version info;
                                 env := env |} |})
  ∨ (∃ e, (createModel (fixture_host []) wt).1 = Throw e ∧ missing_git e
          ∧ extension_model (createGitExtension (Some model)) = None).
Proof.
  cbv zeta.
  apply (activate_resolves_with_the_git_found (fixture_host []) [now_enabled]
           world_disabled
           (set_settings (change_settings now_enabled)
              (activate_prelude (fixture_host []) world_disabled).2)
           (createGitExtension
              (Some {| model_git := {| gitPath := path git_2_30;
                                       git_version := version git_2_30;
                                       env := [(lit "GIT_ASKPASS", lit "askpass.sh")] |} |}))
           (world_of (activate (fixture_host []) [now_enabled] world_disabled))).
  - eexists _, _. split; reflexivity.
  - vm_compute. reflexivity.
Defined.

Lemma activate_fails_on_a_thrown_null_witness :
  activate (fixture_host []) [] world_null_failure
  = Settled (Throw (type_error (lit "null")))
      (createModel (fixture_host [])
         (activate_prelude (fixture_host []) world_null_failure).2).2.
Proof.
  apply (proj1 (activate_fails_on_a_thrown_null (fixture_host []) [] world_null_failure
                  (activate_prelude (fixture_host []) world_null_failure).2
                  (createModel (fixture_host [])
                     (activate_prelude (fixture_host []) world_null_failure).2).2
                  ltac:(eexists _, _; split; reflexivity))).
  reflexivity.
Defined.

End MoreWitnesses.
